(** * rate-limiter-advanced: the custom sliding-window-log limiter

    A shallow embedding of [customRedisRateLimiter] (src/rateLimiter.js)
    and the properties of its window decision, its log compaction and its
    interaction with the Redis store.

    Modelling choices, all visible in the definitions below:
    - JavaScript numbers are integers of [Z], and [+] and [++] add in
      [Z]. The code adds in double precision, which agrees with [Z] as
      long as the operands are integers and the sum does not exceed 2^53
      in magnitude. The statements about an arbitrary stored log that
      depend on the sum of its counts are made for counts that are not
      negative ([counts_nonneg], [safe_counts], [counts_positive]); for
      these the comparison of the sum with the maximum does not depend
      on the rounding (lemma [rounded_decision]), and [++] is exact on a
      count below 2^53 (lemma [rounded_increment]);
    - a [moment] object is a mutable cell holding milliseconds since the
      epoch; [subtract] changes the cell it is called on (moment.js:
      "mutates the original moment by subtracting time") and the embedding
      rebinds the variable to the changed cell;
    - the Redis store is a finite map from keys to stored strings, together
      with the number of SET commands executed; a stored string is
      represented by what [JSON.parse] makes of it;
    - the parsed values cover [null], integers, flat objects whose
      properties are [null] or integers, and arrays of those; booleans,
      strings, fractions and nested values are outside the embedding;
    - [getAsync] and [setAsync] do not fail in the embedding;
    - an invocation can be interleaved with another one only at its two
      [await]s, so two overlapping invocations are modelled by running
      both reads before the two continuations ([after_get], [racing]).

    [rateLimiterUsingThirdParty] only forwards to rate-limiter-flexible,
    whose code is not part of the repository; it is not embedded. *)

From Stdlib Require Import ZArith Lia.
From stdpp Require Import base strings list gmap.

Open Scope string_scope.
Open Scope Z_scope.

(** ** moment.js, as far as the limiter uses it *)

Module Moment.

Record t := make { valueOf : Z }.

(** [moment()] when the system clock reads [clock] milliseconds. *)
Definition moment (clock : Z) : t := make clock.

(** [m.unix()] is [Math.floor(m.valueOf() / 1000)]. *)
Definition unix (m : t) : Z := valueOf m / 1000.

(** [m.subtract(amount, 'hours')]: the state of [m] after the call
    (the call returns [m] itself). *)
Definition subtract (amount : Z) (m : t) : t :=
  make (valueOf m - amount * 3600000).

End Moment.

(** ** JavaScript values and the exceptions the limiter can meet *)

Inductive jserror := SyntaxError | TypeError.

Inductive result (A : Type) :=
| Ok (a : A)
| Throw (e : jserror).
Arguments Ok {A} a.
Arguments Throw {A} e.

Definition bind {A B} (r : result A) (k : A -> result B) : result B :=
  match r with
  | Ok a => k a
  | Throw e => Throw e
  end.

Notation "'let*' x ':=' r 'in' k" := (bind r (fun x => k))
  (at level 10, x name, r at level 100, k at level 200).

(** A number in arithmetic position. *)
Inductive jsnum := NaN | Num (n : Z).

(** The value of an object property. [PNaN] only exists in memory:
    [JSON.stringify] writes it as [null]. *)
Inductive jsprim := PNull | PNaN | PNum (n : Z).

(** An element of the parsed array. *)
Inductive jsentry :=
| ENull
| ENumber (n : Z)
| EObject (props : list (string * jsprim)).

(** The parsed stored value. *)
Inductive jsdata :=
| DNull
| DNumber (n : Z)
| DObject (props : list (string * jsprim))
| DArray (entries : list jsentry).

(** A stored string: one that [JSON.parse] rejects, or the text of a value. *)
Inductive stored :=
| Malformed (text : string)
| JsonText (d : jsdata).

Definition stringify_prim (p : jsprim) : jsprim :=
  match p with
  | PNaN => PNull
  | _ => p
  end.

Definition stringify_props (props : list (string * jsprim)) : list (string * jsprim) :=
  map (fun kv => (fst kv, stringify_prim (snd kv))) props.

Definition stringify_entry (e : jsentry) : jsentry :=
  match e with
  | EObject props => EObject (stringify_props props)
  | _ => e
  end.

Definition JSON_stringify (d : jsdata) : stored :=
  JsonText
    match d with
    | DObject props => DObject (stringify_props props)
    | DArray entries => DArray (map stringify_entry entries)
    | _ => d
    end.

Definition JSON_parse (record : stored) : result jsdata :=
  match record with
  | Malformed _ => Throw SyntaxError
  | JsonText d => Ok d
  end.

Fixpoint lookup_prop (name : string) (props : list (string * jsprim)) : option jsprim :=
  match props with
  | [] => None
  | (k, v) :: rest => if String.eqb k name then Some v else lookup_prop name rest
  end.

Fixpoint assign_prop (name : string) (v : jsprim) (props : list (string * jsprim))
  : list (string * jsprim) :=
  match props with
  | [] => [(name, v)]
  | (k, w) :: rest =>
      if String.eqb k name then (k, v) :: rest else (k, w) :: assign_prop name v rest
  end.

(** [e.name] where [e] is an array element or [undefined] ([None]);
    the result [None] is [undefined]. *)
Definition get_prop (name : string) (e : option jsentry) : result (option jsprim) :=
  match e with
  | None => Throw TypeError
  | Some ENull => Throw TypeError
  | Some (ENumber _) => Ok None
  | Some (EObject props) => Ok (lookup_prop name props)
  end.

Definition ToNumber (v : option jsprim) : jsnum :=
  match v with
  | None => NaN
  | Some PNull => Num 0
  | Some PNaN => NaN
  | Some (PNum n) => Num n
  end.

Definition js_gt (a b : jsnum) : bool :=
  match a, b with
  | Num x, Num y => x >? y
  | _, _ => false
  end.

Definition js_ge (a b : jsnum) : bool :=
  match a, b with
  | Num x, Num y => x >=? y
  | _, _ => false
  end.

(** [a + b] on numbers. The sum is taken in [Z]: it is the sum the code
    computes when it does not exceed 2^53 in magnitude. *)
Definition js_add (a b : jsnum) : jsnum :=
  match a, b with
  | Num x, Num y => Num (x + y)
  | _, _ => NaN
  end.

Definition to_prim (x : jsnum) : jsprim :=
  match x with
  | NaN => PNaN
  | Num n => PNum n
  end.

(** [data.filter(callback)]: only arrays have a [filter] method. *)
Fixpoint filter_entries (callback : jsentry -> result bool) (entries : list jsentry)
  : result (list jsentry) :=
  match entries with
  | [] => Ok []
  | e :: rest =>
      let* keep := callback e in
      let* kept := filter_entries callback rest in
      Ok (if keep then e :: kept else kept)
  end.

Definition Array_filter (callback : jsentry -> result bool) (data : jsdata)
  : result (list jsentry) :=
  match data with
  | DArray entries => filter_entries callback entries
  | _ => Throw TypeError
  end.

(** [entries.reduce(callback, initial)]. *)
Fixpoint Array_reduce (callback : jsnum -> jsentry -> result jsnum)
  (entries : list jsentry) (accumulator : jsnum) : result jsnum :=
  match entries with
  | [] => Ok accumulator
  | e :: rest =>
      let* acc := callback accumulator e in
      Array_reduce callback rest acc
  end.

(** [e.requestCount++] on the object [e] (module code is strict: the
    assignment to a property of a number throws). *)
Definition increment_requestCount (e : jsentry) : result jsentry :=
  match e with
  | ENull => Throw TypeError
  | ENumber _ => Throw TypeError
  | EObject props =>
      let old := ToNumber (lookup_prop "requestCount" props) in
      Ok (EObject (assign_prop "requestCount" (to_prim (js_add old (Num 1))) props))
  end.

(** The object literal [{ requestTimeStamp: ts, requestCount: count }]. *)
Definition entry (ts count : Z) : jsentry :=
  EObject [("requestTimeStamp", PNum ts); ("requestCount", PNum count)].

(** ** The Redis store *)

Record Redis := mkRedis {
  db : gmap string stored;
  set_commands : nat
}.

Definition getAsync (key : string) (redis : Redis) : option stored :=
  db redis !! key.

Definition setAsync (key : string) (value : stored) (redis : Redis) : Redis :=
  mkRedis (<[key := value]> (db redis)) (S (set_commands redis)).

(** ** The limiter *)

Definition WINDOW_SIZE_IN_HOURS : Z := 24.
Definition MAX_WINDOW_REQUEST_COUNT : Z := 110.
Definition WINDOW_LOG_INTERVAL_IN_HOURS : Z := 1.

(** What the middleware does with the request: [next()], the 429 response
    whose message carries the limit and the window, or [next(error)]. *)
Inductive Decision :=
| Allow
| Deny (limit hours : Z)
| Fail (error : jserror).

(** The part of [customRedisRateLimiter] after the [record == null] test.
    [clock2] is the reading of the second [moment()] call. *)
Definition evaluate_record (ip : string) (currentRequestTime : Moment.t) (clock2 : Z)
  (record : stored) (redis : Redis) : result (Decision * Redis) :=
  let* data := JSON_parse record in
  let windowStartTimestamp :=
    Moment.unix (Moment.subtract WINDOW_SIZE_IN_HOURS (Moment.moment clock2)) in
  let* requestsWithinWindow :=
    Array_filter
      (fun e =>
         let* ts := get_prop "requestTimeStamp" (Some e) in
         Ok (js_gt (ToNumber ts) (Num windowStartTimestamp)))
      data in
  let* totalWindowRequestsCount :=
    Array_reduce
      (fun accumulator e =>
         let* count := get_prop "requestCount" (Some e) in
         Ok (js_add accumulator (ToNumber count)))
      requestsWithinWindow (Num 0) in
  if js_ge totalWindowRequestsCount (Num MAX_WINDOW_REQUEST_COUNT) then
    Ok (Deny MAX_WINDOW_REQUEST_COUNT WINDOW_SIZE_IN_HOURS, redis)
  else
    match data with
    | DArray entries =>
        let lastRequestLog := last entries in
        (* [subtract] changes the moment it is called on: from here on
           [currentRequestTime] is one log interval before the request *)
        let currentRequestTime :=
          Moment.subtract WINDOW_LOG_INTERVAL_IN_HOURS currentRequestTime in
        let potentialCurrentWindowIntervalStartTimeStamp :=
          Moment.unix currentRequestTime in
        let* ts := get_prop "requestTimeStamp" lastRequestLog in
        let* entries' :=
          if js_gt (ToNumber ts) (Num potentialCurrentWindowIntervalStartTimeStamp)
          then
            match lastRequestLog with
            | Some e =>
                (* [lastRequestLog] is the last element of [data] itself *)
                let* e' := increment_requestCount e in
                Ok (<[Nat.pred (length entries) := e']> entries)
            | None => Throw TypeError
            end
          else
            Ok (entries ++ [entry (Moment.unix currentRequestTime) 1])%list
        in
        Ok (Allow, setAsync ip (JSON_stringify (DArray entries')) redis)
    | _ => Throw TypeError (* not reached: [filter] has thrown *)
    end.

(** [customRedisRateLimiter(req, res, next)] with [req.ip = ip], when the
    two [moment()] calls read [clock1] and [clock2] milliseconds. *)
Definition customRedisRateLimiter (ip : string) (clock1 clock2 : Z) (redis : Redis)
  : Decision * Redis :=
  let currentRequestTime := Moment.moment clock1 in
  match getAsync ip redis with
  | None =>
      let newRecord := DArray [entry (Moment.unix currentRequestTime) 1] in
      (Allow, setAsync ip (JSON_stringify newRecord) redis)
  | Some record =>
      match evaluate_record ip currentRequestTime clock2 record redis with
      | Ok r => r
      | Throw error => (Fail error, redis)
      end
  end.

(** ** Logs of buckets, and sequences of evaluations *)

Record Bucket := mkBucket {
  requestTimeStamp : Z;
  requestCount : Z
}.

Definition of_bucket (b : Bucket) : jsentry :=
  entry (requestTimeStamp b) (requestCount b).

(** The stored string of a log. *)
Definition stored_log (log : list Bucket) : stored :=
  JSON_stringify (DArray (map of_bucket log)).

(** The store [redis] with the log [log] under [ip]. *)
Definition with_log (ip : string) (log : list Bucket) (redis : Redis) : Redis :=
  mkRedis (<[ip := stored_log log]> (db redis)) (set_commands redis).

Definition windowSize : Z := WINDOW_SIZE_IN_HOURS * 3600.
Definition compactionInterval : Z := WINDOW_LOG_INTERVAL_IN_HOURS * 3600.
Definition maxRequests : Z := MAX_WINDOW_REQUEST_COUNT.

(** The sum of the counts of the buckets that start after [windowStart]. *)
Fixpoint totalAfter (windowStart : Z) (log : list Bucket) : Z :=
  match log with
  | [] => 0
  | b :: rest =>
      (if requestTimeStamp b >? windowStart then requestCount b else 0)
      + totalAfter windowStart rest
  end.

(** The log an allowed request at [now] seconds leaves behind, as buckets
    (what [customRedisRateLimiter] writes: lemma [limiter_on_log]). *)
Definition updated_log (now : Z) (log : list Bucket) : list Bucket :=
  match last log with
  | Some b =>
      if requestTimeStamp b >? now - compactionInterval
      then <[Nat.pred (length log) := mkBucket (requestTimeStamp b) (requestCount b + 1)]> log
      else (log ++ [mkBucket (now - compactionInterval) 1])%list
  | None => log
  end.

(** The clock readings of one evaluation: at entry, and where the window
    start is computed. The time in seconds is the reading divided by 1000. *)
Definition Clocks : Type := Z * Z.

Definition at_second (now : Z) : Clocks := (now * 1000, now * 1000).

Definition seconds (clock : Z) : Z := Moment.unix (Moment.moment clock).

(** Evaluations for [ip], one after the other: the decisions and the store
    they leave. *)
Fixpoint run (ip : string) (evaluations : list Clocks) (redis : Redis)
  : list Decision * Redis :=
  match evaluations with
  | [] => ([], redis)
  | (clock1, clock2) :: rest =>
      let (decision, redis1) := customRedisRateLimiter ip clock1 clock2 redis in
      let (decisions, redis2) := run ip rest redis1 in
      (decision :: decisions, redis2)
  end.

Definition is_allow (d : Decision) : bool :=
  match d with Allow => true | _ => false end.

Definition is_deny (d : Decision) : bool :=
  match d with Deny _ _ => true | _ => false end.

(** The number of Allow decisions among [decisions] whose evaluation read
    its clocks inside the seconds [from, to). *)
Fixpoint allows_within (from to : Z) (evaluations : list Clocks) (decisions : list Decision)
  : Z :=
  match evaluations, decisions with
  | (clock1, clock2) :: evs, d :: ds =>
      (if is_allow d && (from <=? seconds clock1) && (seconds clock2 <? to)
       then 1 else 0)
      + allows_within from to evs ds
  | _, _ => 0
  end.

Fixpoint count_allows (decisions : list Decision) : nat :=
  match decisions with
  | [] => 0%nat
  | d :: ds => ((if is_allow d then 1 else 0) + count_allows ds)%nat
  end.

(** The buckets stored for a key. *)
Definition stored_buckets (record : option stored) : option (list jsentry) :=
  match record with
  | Some (JsonText (DArray entries)) => Some entries
  | _ => None
  end.

Definition bucket_count (record : option stored) : nat :=
  match stored_buckets record with
  | Some entries => length entries
  | None => 0%nat
  end.

(** Each bucket's timestamp stands in [rel] to the next one's. *)
Fixpoint ordered_by (rel : Z -> Z -> bool) (log : list Bucket) : bool :=
  match log with
  | [] => true
  | b :: rest =>
      match rest with
      | [] => true
      | b' :: _ => rel (requestTimeStamp b) (requestTimeStamp b') && ordered_by rel rest
      end
  end.

Definition strictly_ordered (log : list Bucket) : bool := ordered_by Z.ltb log.

Definition nondecreasing (log : list Bucket) : bool := ordered_by Z.leb log.

Definition counts_positive (log : list Bucket) : bool :=
  forallb (fun b => 1 <=? requestCount b) log.

(** The key holds nothing, or a non-empty log in non-decreasing order of
    timestamps with positive counts. *)
Definition holds_ordered_log (ip : string) (redis : Redis) : Prop :=
  match getAsync ip redis with
  | None => True
  | Some record =>
      exists log, record = stored_log log
        /\ log <> [] /\ nondecreasing log = true /\ counts_positive log = true
  end.

Definition empty_redis : Redis := mkRedis ∅ 0.

Definition log_of (ip : string) (redis : Redis) : option (list jsentry) :=
  stored_buckets (db redis !! ip).

(** The buckets of [log] that start after [windowStart]. *)
Fixpoint bucketsAfter (windowStart : Z) (log : list Bucket) : list Bucket :=
  match log with
  | [] => []
  | b :: rest =>
      if requestTimeStamp b >? windowStart
      then b :: bucketsAfter windowStart rest
      else bucketsAfter windowStart rest
  end.

Fixpoint sumCounts (log : list Bucket) : Z :=
  match log with
  | [] => 0
  | b :: rest => requestCount b + sumCounts rest
  end.

(** An array element that has both fields of a bucket, as numbers. *)
Definition is_bucket (e : jsentry) : bool :=
  match e with
  | EObject props =>
      match lookup_prop "requestTimeStamp" props, lookup_prop "requestCount" props with
      | Some (PNum _), Some (PNum _) => true
      | _, _ => false
      end
  | _ => false
  end.

(** A stored string that is the text of an array of buckets. *)
Definition valid_log (record : stored) : bool :=
  match record with
  | JsonText (DArray entries) => forallb is_bucket entries
  | _ => false
  end.

Definition is_null (e : jsentry) : bool :=
  match e with ENull => true | _ => false end.

(** A stored string that is not JSON, or the text of something else than
    a non-empty array without [null] elements. *)
Definition unusable (record : stored) : bool :=
  match record with
  | Malformed _ => true
  | JsonText (DArray []) => true
  | JsonText (DArray entries) => existsb is_null entries
  | JsonText _ => true
  end.

(** [ceil(windowSize / compactionInterval) + 1]. *)
Definition bucket_bound : Z :=
  (windowSize + compactionInterval - 1) / compactionInterval + 1.

(** Of the requests admitted at the seconds [admitted], the number that
    came later than [compactionInterval] after [windowStart]. *)
Fixpoint recordedAfter (windowStart : Z) (admitted : list Z) : Z :=
  match admitted with
  | [] => 0
  | a :: rest =>
      (if a - compactionInterval >? windowStart then 1 else 0)
      + recordedAfter windowStart rest
  end.

(** The number of the requests admitted at [admitted] not before [from]. *)
Fixpoint admittedFrom (from : Z) (admitted : list Z) : Z :=
  match admitted with
  | [] => 0
  | a :: rest => (if from <=? a then 1 else 0) + admittedFrom from rest
  end.

(** Evaluations at the seconds [first], [first + gap], ... *)
Fixpoint every (gap : Z) (n : nat) (first : Z) : list Clocks :=
  match n with
  | O => []
  | S n' => at_second first :: every gap n' (first + gap)
  end.

(** A store of a fresh process whose only key is [ip]. *)
Definition store_holding (ip : string) (record : stored) : Redis :=
  mkRedis {[ip := record]} 0.

(** The stored log accounts for every admitted request. *)
Definition accounted (ip : string) (admitted : list Z) (redis : Redis) : Prop :=
  match getAsync ip redis with
  | None => admitted = []
  | Some record =>
      exists log, record = stored_log log
        /\ forall windowStart, recordedAfter windowStart admitted <= totalAfter windowStart log
  end.

Definition is_fail (d : Decision) : bool :=
  match d with Fail _ => true | _ => false end.

(** [customRedisRateLimiter] from the point where [await getAsync(req.ip)]
    has returned [record]; [redis] is the store at the time the SET
    command of this invocation, if any, is executed. *)
Definition after_get (ip : string) (clock1 clock2 : Z) (record : option stored)
  (redis : Redis) : Decision * Redis :=
  let currentRequestTime := Moment.moment clock1 in
  match record with
  | None =>
      let newRecord := DArray [entry (Moment.unix currentRequestTime) 1] in
      (Allow, setAsync ip (JSON_stringify newRecord) redis)
  | Some record =>
      match evaluate_record ip currentRequestTime clock2 record redis with
      | Ok r => r
      | Throw error => (Fail error, redis)
      end
  end.

(** Two invocations for the same [ip] that overlap: the GET commands of
    both are executed before the SET command of either. *)
Definition racing (ip : string) (first second : Clocks) (redis : Redis)
  : Decision * Decision * Redis :=
  let record1 := getAsync ip redis in
  let record2 := getAsync ip redis in
  let (d1, redis1) := after_get ip (fst first) (snd first) record1 redis in
  let (d2, redis2) := after_get ip (fst second) (snd second) record2 redis1 in
  (d1, d2, redis2).

(** The key holds nothing and nothing was admitted, or it holds a
    non-empty log with positive counts that sum to [admitted]. *)
Definition tallied (ip : string) (admitted : Z) (redis : Redis) : Prop :=
  match getAsync ip redis with
  | None => admitted = 0
  | Some record =>
      exists log, record = stored_log log
        /\ log <> [] /\ counts_positive log = true /\ sumCounts log = admitted
  end.

(** No count is negative. *)
Definition counts_nonneg (log : list Bucket) : bool :=
  forallb (fun b => 0 <=? requestCount b) log.

(** Every count is a safe integer that is not negative: at least 0 and
    below 2^53, so that one more is still exact in double precision. *)
Definition safe_counts (log : list Bucket) : bool :=
  forallb (fun b => (0 <=? requestCount b) && (requestCount b <? 2 ^ 53)) log.

(** [a + b] when the sum is rounded by [rnd], as an addition in floating
    point rounds it. *)
Definition rounded_add (rnd : Z -> Z) (a b : jsnum) : jsnum :=
  match a, b with
  | Num x, Num y => Num (rnd (x + y))
  | _, _ => NaN
  end.

(** A rounded and an exact running total stand for the same number: they
    are equal and at most 2^53, or both are 2^53 or more. *)
Definition same_total (rounded exact : Z) : Prop :=
  (rounded = exact /\ 0 <= exact <= 2 ^ 53) \/ (2 ^ 53 <= rounded /\ 2 ^ 53 <= exact).

Definition counts_bounded (log : list Bucket) : bool :=
  forallb (fun b => requestCount b <=? maxRequests) log.

(** The key holds nothing, or a log whose counts lie between 1 and
    [maxRequests]. *)
Definition holds_bounded_log (ip : string) (redis : Redis) : Prop :=
  match getAsync ip redis with
  | None => True
  | Some record =>
      exists log, record = stored_log log
        /\ counts_positive log = true /\ counts_bounded log = true
  end.

(** The window start is read no later after the entry than the window
    exceeds the compaction interval (23 hours). *)
Definition prompt (clocks : Clocks) : Prop :=
  seconds (snd clocks) - seconds (fst clocks) <= windowSize - compactionInterval.

(** The SET command of an invocation, if it issues one. *)
Definition write_back (ip : string) (value : option stored) (redis : Redis) : Redis :=
  match value with
  | Some v => setAsync ip v redis
  | None => redis
  end.

(** An array element whose [requestCount] does not convert to a number:
    an object without that property. *)
Definition count_is_NaN (e : jsentry) : bool :=
  match e with
  | EObject props =>
      match ToNumber (lookup_prop "requestCount" props) with
      | NaN => true
      | Num _ => false
      end
  | _ => false
  end.

(** Such an element whose timestamp is after [windowStart]: it turns the
    window total into [NaN]. *)
Definition counts_as_NaN (windowStart : Z) (e : jsentry) : bool :=
  match e with
  | EObject props =>
      js_gt (ToNumber (lookup_prop "requestTimeStamp" props)) (Num windowStart)
  | _ => false
  end
  && count_is_NaN e.

(** Case analysis on the first computation of a sequence. *)
Ltac case_bind :=
  match goal with
  | |- context [bind ?r _] =>
      let E := fresh "E" in destruct r eqn:E; cbn [bind]
  end.

(** ** The limiter on a stored log *)

Example scenario_first_hour :
  log_of "C" (snd (run "C" [at_second 0; at_second 30; at_second 3700] empty_redis))
  = Some [entry 0 2; entry 100 1].
Proof. vm_compute. reflexivity. Qed.


Lemma unix_subtract (hours clock : Z) :
  Moment.unix (Moment.subtract hours (Moment.moment clock)) = seconds clock - hours * 3600.
Proof.
  unfold seconds, Moment.unix, Moment.subtract, Moment.moment; cbn [Moment.valueOf].
  replace (clock - hours * 3600000) with (clock + (- (hours * 3600)) * 1000) by lia.
  rewrite Z.div_add by lia. lia.
Qed.

Lemma seconds_at_second (now : Z) : seconds (now * 1000) = now.
Proof.
  unfold seconds, Moment.unix, Moment.moment; cbn [Moment.valueOf].
  now rewrite Z.div_mul.
Qed.

Lemma get_requestTimeStamp (b : Bucket) :
  get_prop "requestTimeStamp" (Some (of_bucket b)) = Ok (Some (PNum (requestTimeStamp b))).
Proof. reflexivity. Qed.

Lemma get_requestCount (b : Bucket) :
  get_prop "requestCount" (Some (of_bucket b)) = Ok (Some (PNum (requestCount b))).
Proof. reflexivity. Qed.

Lemma increment_of_bucket (b : Bucket) :
  increment_requestCount (of_bucket b)
  = Ok (of_bucket (mkBucket (requestTimeStamp b) (requestCount b + 1))).
Proof. reflexivity. Qed.

Lemma stringify_of_bucket (b : Bucket) : stringify_entry (of_bucket b) = of_bucket b.
Proof. reflexivity. Qed.

Lemma stringify_log (log : list Bucket) :
  map stringify_entry (map of_bucket log) = map of_bucket log.
Proof.
  induction log as [|b log IH]; cbn [map]; [reflexivity|].
  now rewrite IH, stringify_of_bucket.
Qed.

Lemma stored_log_eq (log : list Bucket) :
  stored_log log = JsonText (DArray (map of_bucket log)).
Proof. unfold stored_log, JSON_stringify. now rewrite stringify_log. Qed.

Lemma of_bucket_inj (b b' : Bucket) : of_bucket b = of_bucket b' -> b = b'.
Proof. destruct b, b'; unfold of_bucket, entry; simpl; congruence. Qed.

Lemma map_of_bucket_inj (l l' : list Bucket) :
  map of_bucket l = map of_bucket l' -> l = l'.
Proof.
  generalize of_bucket_inj. generalize of_bucket. intros f Hf.
  revert l'; induction l as [|b l IH]; intros [|b' l'] H; simpl in H;
    try discriminate; [reflexivity|].
  injection H as Hb Hl. apply IH in Hl. apply Hf in Hb. congruence.
Qed.

Lemma stored_log_inj (l l' : list Bucket) : stored_log l = stored_log l' -> l = l'.
Proof.
  rewrite !stored_log_eq. intros H. apply map_of_bucket_inj. congruence.
Qed.

Lemma totalAfter_sum (windowStart : Z) (log : list Bucket) :
  totalAfter windowStart log = sumCounts (bucketsAfter windowStart log).
Proof.
  induction log as [|b log IH]; simpl; [reflexivity|].
  destruct (requestTimeStamp b >? windowStart); simpl; lia.
Qed.

Lemma filter_log (windowStart : Z) (log : list Bucket) :
  filter_entries
    (fun e =>
       let* ts := get_prop "requestTimeStamp" (Some e) in
       Ok (js_gt (ToNumber ts) (Num windowStart)))
    (map of_bucket log)
  = Ok (map of_bucket (bucketsAfter windowStart log)).
Proof.
  induction log as [|b log IH]; cbn [map filter_entries bucketsAfter]; [reflexivity|].
  rewrite get_requestTimeStamp, IH; cbn [bind ToNumber js_gt].
  now destruct (requestTimeStamp b >? windowStart).
Qed.

Lemma reduce_log (log : list Bucket) (acc : Z) :
  Array_reduce
    (fun accumulator e =>
       let* count := get_prop "requestCount" (Some e) in
       Ok (js_add accumulator (ToNumber count)))
    (map of_bucket log) (Num acc)
  = Ok (Num (acc + sumCounts log)).
Proof.
  revert acc; induction log as [|b log IH]; intros acc;
    cbn [map Array_reduce sumCounts].
  - f_equal. f_equal. lia.
  - rewrite get_requestCount; cbn [bind ToNumber js_add]. rewrite IH.
    f_equal. f_equal. lia.
Qed.

Lemma last_log (log : list Bucket) :
  last (map of_bucket log) = option_map of_bucket (last log).
Proof.
  induction log as [|b [|b' log] IH]; try reflexivity.
  exact IH.
Qed.

Lemma insert_log (i : nat) (b : Bucket) (log : list Bucket) :
  <[i := of_bucket b]> (map of_bucket log) = map of_bucket (<[i := b]> log).
Proof.
  revert i; induction log as [|b' log IH]; intros [|i]; simpl; try reflexivity.
  f_equal. apply IH.
Qed.

(** What the limiter does when the key holds a log. *)
Lemma limiter_on_log (ip : string) (clock1 clock2 : Z) (redis : Redis) (log : list Bucket) :
  getAsync ip redis = Some (stored_log log) ->
  customRedisRateLimiter ip clock1 clock2 redis =
    if maxRequests <=? totalAfter (seconds clock2 - windowSize) log
    then (Deny MAX_WINDOW_REQUEST_COUNT WINDOW_SIZE_IN_HOURS, redis)
    else match log with
         | [] => (Fail TypeError, redis)
         | _ => (Allow, setAsync ip (stored_log (updated_log (seconds clock1) log)) redis)
         end.
Proof.
  intros Hget. unfold customRedisRateLimiter. rewrite Hget.
  unfold evaluate_record. rewrite stored_log_eq. cbn [JSON_parse bind].
  rewrite unix_subtract. cbn [Array_filter].
  change (WINDOW_SIZE_IN_HOURS * 3600) with windowSize.
  rewrite filter_log. cbn [bind]. rewrite reduce_log. cbn [bind js_ge].
  rewrite <- totalAfter_sum, Z.add_0_l.
  rewrite Z.geb_leb. unfold maxRequests.
  destruct (MAX_WINDOW_REQUEST_COUNT <=? totalAfter (seconds clock2 - windowSize) log);
    [reflexivity|].
  rewrite unix_subtract, last_log.
  change (WINDOW_LOG_INTERVAL_IN_HOURS * 3600) with compactionInterval.
  unfold updated_log.
  destruct (last log) as [b|] eqn:Hlast.
  - assert (log <> []) as Hne by (intros ->; discriminate).
    destruct log as [|b0 log0]; [contradiction|].
    cbn [option_map]. rewrite get_requestTimeStamp. cbn [bind ToNumber js_gt].
    destruct (requestTimeStamp b >? seconds clock1 - compactionInterval).
    + rewrite increment_of_bucket. cbn [bind].
      rewrite length_map, insert_log. reflexivity.
    + cbn [bind]. unfold stored_log. rewrite map_app. reflexivity.
  - destruct log as [|b0 log0]; [reflexivity|].
    exfalso. revert Hlast. clear. revert b0.
    induction log0 as [|b1 log0 IH]; intros b0; [discriminate|]. apply IH.
Qed.

(** ** What one evaluation can do to the store *)

(** An evaluation that finds a stored value either allows and writes an
    array got from the stored one by a change in place or by one more
    element, or denies, or throws; the last two leave the store alone. *)
Lemma evaluate_record_cases (ip : string) (m : Moment.t) (clock2 : Z)
  (record : stored) (redis : Redis) :
  match evaluate_record ip m clock2 record redis with
  | Ok (Allow, redis') =>
      exists entries entries',
        record = JsonText (DArray entries)
        /\ redis' = setAsync ip (JSON_stringify (DArray entries')) redis
        /\ (length entries <= length entries' <= S (length entries))%nat
  | Ok (Deny limit hours, redis') =>
      limit = MAX_WINDOW_REQUEST_COUNT /\ hours = WINDOW_SIZE_IN_HOURS /\ redis' = redis
  | Ok (Fail _, _) => False
  | Throw _ => True
  end.
Proof.
  unfold evaluate_record.
  destruct record as [text|data]; cbn [JSON_parse bind]; [exact I|].
  case_bind; [|exact I]. case_bind; [|exact I].
  destruct (js_ge _ _); [now repeat split|].
  destruct data as [| |props|entries]; try exact I.
  case_bind; [|exact I].
  destruct (js_gt _ _).
  - destruct (last entries) as [e|]; [|exact I].
    destruct (increment_requestCount e) as [e'|]; cbn [bind]; [|exact I].
    exists entries, (<[Nat.pred (length entries) := e']> entries).
    rewrite length_insert. repeat split; lia.
  - cbn [bind]. eexists entries, _. repeat split.
    all: rewrite length_app; simpl; lia.
Qed.

Lemma limiter_cold (ip : string) (clock1 clock2 : Z) (redis : Redis) :
  getAsync ip redis = None ->
  customRedisRateLimiter ip clock1 clock2 redis
  = (Allow, setAsync ip (stored_log [mkBucket (seconds clock1) 1]) redis).
Proof. intros Hget. unfold customRedisRateLimiter. now rewrite Hget. Qed.

(** Only an Allow decision changes the store, and it does so by one SET. *)
Lemma limiter_cases (ip : string) (clock1 clock2 : Z) (redis : Redis) :
  let (decision, redis') := customRedisRateLimiter ip clock1 clock2 redis in
  match decision with
  | Allow => exists value, redis' = setAsync ip value redis
  | Deny limit hours =>
      limit = MAX_WINDOW_REQUEST_COUNT /\ hours = WINDOW_SIZE_IN_HOURS /\ redis' = redis
  | Fail _ => redis' = redis
  end.
Proof.
  unfold customRedisRateLimiter.
  destruct (getAsync ip redis) as [record|]; [|eauto].
  pose proof (evaluate_record_cases ip (Moment.moment clock1) clock2 record redis) as H.
  destruct (evaluate_record _ _ _ _ _) as [[[| |] redis']|]; try easy.
  destruct H as (? & ? & _ & -> & _). eauto.
Qed.

Lemma getAsync_setAsync (ip : string) (value : stored) (redis : Redis) :
  getAsync ip (setAsync ip value redis) = Some value.
Proof. unfold getAsync, setAsync; simpl. apply lookup_insert_eq. Qed.

Lemma getAsync_with_log (ip : string) (log : list Bucket) (redis : Redis) :
  getAsync ip (with_log ip log redis) = Some (stored_log log).
Proof. unfold getAsync, with_log; simpl. apply lookup_insert_eq. Qed.

Lemma bucket_count_stringify (entries : list jsentry) :
  bucket_count (Some (JSON_stringify (DArray entries))) = length entries.
Proof. unfold bucket_count; simpl. apply length_map. Qed.

(** One evaluation never removes a bucket and adds at most one, and only
    when it allows. *)
Lemma limiter_bucket_count (ip : string) (clock1 clock2 : Z) (redis : Redis) :
  let (decision, redis') := customRedisRateLimiter ip clock1 clock2 redis in
  (bucket_count (getAsync ip redis) <= bucket_count (getAsync ip redis')
   <= bucket_count (getAsync ip redis) + (if is_allow decision then 1 else 0))%nat.
Proof.
  unfold customRedisRateLimiter.
  destruct (getAsync ip redis) as [record|] eqn:Hget.
  - pose proof (evaluate_record_cases ip (Moment.moment clock1) clock2 record redis) as H.
    destruct (evaluate_record _ _ _ _ _) as [[[| |] redis']|].
    + destruct H as (entries & entries' & -> & -> & Hlen).
      rewrite getAsync_setAsync, bucket_count_stringify.
      unfold bucket_count; simpl. lia.
    + destruct H as (_ & _ & ->). rewrite Hget; simpl. lia.
    + contradiction.
    + rewrite Hget; simpl. lia.
  - rewrite getAsync_setAsync. unfold stored_log.
    rewrite bucket_count_stringify. unfold bucket_count; simpl. lia.
Qed.

(** The decision and the value written do not depend on the key or on the
    rest of the store. *)
Lemma evaluate_record_key (ip ip' : string) (m : Moment.t) (clock2 : Z)
  (record : stored) (redis redis' : Redis) :
  match evaluate_record ip m clock2 record redis,
        evaluate_record ip' m clock2 record redis' with
  | Ok (d, s), Ok (d', s') =>
      d = d' /\
      ((exists value, s = setAsync ip value redis /\ s' = setAsync ip' value redis')
       \/ (s = redis /\ s' = redis'))
  | Throw e, Throw e' => e = e'
  | _, _ => False
  end.
Proof.
  unfold evaluate_record.
  destruct record as [text|data]; cbn [JSON_parse bind]; [reflexivity|].
  case_bind; [|reflexivity]. case_bind; [|reflexivity].
  destruct (js_ge _ _); [now split; [|right]|].
  destruct data as [| |props|entries]; try reflexivity.
  case_bind; [|reflexivity].
  destruct (js_gt _ _).
  - destruct (last entries) as [e|]; [|reflexivity].
    destruct (increment_requestCount e) as [e'|]; cbn [bind]; [|reflexivity].
    split; [reflexivity|]. left. eauto.
  - cbn [bind]. split; [reflexivity|]. left. eauto.
Qed.

Lemma filter_throws_on_null (callback : jsentry -> result bool) (entries : list jsentry) :
  (forall e, callback e = Throw TypeError \/ exists keep, callback e = Ok keep) ->
  callback ENull = Throw TypeError ->
  existsb is_null entries = true ->
  filter_entries callback entries = Throw TypeError.
Proof.
  intros Hcb Hnull. induction entries as [|e entries IH]; cbn [existsb filter_entries].
  - discriminate.
  - intros H. destruct (is_null e) eqn:He.
    + destruct e; try discriminate. now rewrite Hnull.
    + cbn [orb] in H.
      destruct (Hcb e) as [->|[keep ->]]; cbn [bind]; [reflexivity|].
      now rewrite IH.
Qed.

(** ** Sums in double precision *)

(** The code sums the counts in double precision. Whatever the rounding,
    as long as it is monotone and leaves the integers from 0 to 2^53 as
    they are, the total of counts that are not negative compares with the
    maximum as the exact total does. *)
Section Rounding.

Variable rnd : Z -> Z.
Hypothesis rnd_exact : forall n, 0 <= n <= 2 ^ 53 -> rnd n = n.
Hypothesis rnd_monotone : forall n m, n <= m -> rnd n <= rnd m.

Lemma same_total_step (rounded exact count : Z) :
  0 <= count ->
  same_total rounded exact ->
  same_total (rnd (rounded + count)) (exact + count).
Proof.
  intros Hc. unfold same_total.
  assert (0 <= 2 ^ 53) as Hpos by (vm_compute; discriminate).
  pose proof (rnd_exact (2 ^ 53)) as Htop.
  intros [[-> Hsmall]|[Hr He]].
  - destruct (Z_le_gt_dec (exact + count) (2 ^ 53)) as [Hle|Hgt].
    + left. split; [apply rnd_exact|]; lia.
    + right. pose proof (rnd_monotone (2 ^ 53) (exact + count)). lia.
  - right. pose proof (rnd_monotone (2 ^ 53) (rounded + count)). lia.
Qed.

Lemma rounded_reduce (log : list Bucket) :
  counts_nonneg log = true ->
  forall rounded exact,
    same_total rounded exact ->
    exists total,
      Array_reduce
        (fun accumulator e =>
           let* count := get_prop "requestCount" (Some e) in
           Ok (rounded_add rnd accumulator (ToNumber count)))
        (map of_bucket log) (Num rounded)
      = Ok (Num total)
      /\ same_total total (exact + sumCounts log).
Proof.
  induction log as [|b log IH]; intros Hnn rounded exact Hsame;
    cbn [map Array_reduce sumCounts].
  - exists rounded. split; [reflexivity|]. now rewrite Z.add_0_r.
  - cbn [counts_nonneg forallb] in Hnn. apply andb_true_iff in Hnn as [Hb Hlog].
    apply Z.leb_le in Hb.
    rewrite get_requestCount. cbn [bind ToNumber rounded_add].
    destruct (IH Hlog (rnd (rounded + requestCount b)) (exact + requestCount b))
      as (total & Hred & Htotal); [now apply same_total_step|].
    exists total. split; [exact Hred|]. now rewrite Z.add_assoc.
Qed.

Lemma counts_nonneg_bucketsAfter (windowStart : Z) (log : list Bucket) :
  counts_nonneg log = true -> counts_nonneg (bucketsAfter windowStart log) = true.
Proof.
  induction log as [|b log IH]; [reflexivity|]. cbn [counts_nonneg forallb bucketsAfter].
  intros H. apply andb_true_iff in H as [Hb Hlog].
  destruct (requestTimeStamp b >? windowStart); [|now apply IH].
  cbn [forallb]. rewrite Hb. now apply IH.
Qed.

(** The comparison on line 63 gives, on the rounded total of the buckets
    in the window, what it gives on their exact total. *)
Lemma rounded_decision (windowStart : Z) (log : list Bucket) :
  counts_nonneg log = true ->
  exists total,
    Array_reduce
      (fun accumulator e =>
         let* count := get_prop "requestCount" (Some e) in
         Ok (rounded_add rnd accumulator (ToNumber count)))
      (map of_bucket (bucketsAfter windowStart log)) (Num 0)
    = Ok (Num total)
    /\ js_ge (Num total) (Num MAX_WINDOW_REQUEST_COUNT)
       = (maxRequests <=? totalAfter windowStart log).
Proof.
  intros Hnn.
  assert (110 <= 2 ^ 53) as Hbig by (vm_compute; discriminate).
  destruct (rounded_reduce (bucketsAfter windowStart log)
              (counts_nonneg_bucketsAfter windowStart log Hnn) 0 0)
    as (total & Hred & Hsame); [left; lia|].
  exists total. split; [exact Hred|].
  rewrite totalAfter_sum. cbn [js_ge]. rewrite Z.geb_leb.
  unfold maxRequests, MAX_WINDOW_REQUEST_COUNT. rewrite Z.add_0_l in Hsame.
  destruct Hsame as [[-> _]|[Hr He]]; [reflexivity|].
  transitivity true; [|symmetry]; apply Z.leb_le; lia.
Qed.

(** On a safe count that is not negative, [++] is exact. *)
Lemma rounded_increment (count : Z) :
  0 <= count < 2 ^ 53 ->
  rounded_add rnd (Num count) (Num 1) = js_add (Num count) (Num 1).
Proof. intros H. cbn [rounded_add js_add]. f_equal. apply rnd_exact. lia. Qed.

End Rounding.

(** ** Cold start, denial and failure *)

(** C6: evaluating a client key under which the store holds nothing
    yields Allow, and afterwards the store holds under that key the text
    of an array of exactly one bucket, the object with [requestTimeStamp]
    the second of the clock reading at entry and [requestCount] 1. It was
    written by one SET command, and the other keys are as they were. *)
Theorem cold_start_allows (ip : string) (clock1 clock2 : Z) (redis : Redis) :
  db redis !! ip = None ->
  fst (customRedisRateLimiter ip clock1 clock2 redis) = Allow
  /\ db (snd (customRedisRateLimiter ip clock1 clock2 redis)) !! ip
     = Some (JsonText
               (DArray [EObject [("requestTimeStamp", PNum (clock1 / 1000));
                                 ("requestCount", PNum 1)]]))
  /\ set_commands (snd (customRedisRateLimiter ip clock1 clock2 redis))
     = S (set_commands redis)
  /\ forall key, key <> ip ->
       db (snd (customRedisRateLimiter ip clock1 clock2 redis)) !! key = db redis !! key.
Proof.
  intros Hget. rewrite limiter_cold by exact Hget. cbn [fst snd].
  split; [reflexivity|]. split; [|split].
  - unfold setAsync; cbn [db]. now rewrite lookup_insert_eq.
  - reflexivity.
  - intros key Hne. unfold setAsync; cbn [db]. now apply lookup_insert_ne.
Qed.

Lemma cold_start_allows_witness :
  db empty_redis !! "C" = None
  /\ fst (customRedisRateLimiter "C" 5999 6000 empty_redis) = Allow
  /\ db (snd (customRedisRateLimiter "C" 5999 6000 empty_redis)) !! "C"
     = Some (JsonText
               (DArray [EObject [("requestTimeStamp", PNum (5999 / 1000));
                                 ("requestCount", PNum 1)]]))
  /\ set_commands (snd (customRedisRateLimiter "C" 5999 6000 empty_redis))
     = S (set_commands empty_redis)
  /\ forall key, key <> "C" ->
       db (snd (customRedisRateLimiter "C" 5999 6000 empty_redis)) !! key
       = db empty_redis !! key.
Proof. split; [reflexivity | apply cold_start_allows; reflexivity]. Defined.

(** C5: whenever the decision is Deny, the store after the evaluation is
    the store before it: the same value under every key, and no SET
    command executed. *)
Theorem deny_leaves_store (ip : string) (clock1 clock2 : Z) (redis : Redis) :
  is_deny (fst (customRedisRateLimiter ip clock1 clock2 redis)) = true ->
  snd (customRedisRateLimiter ip clock1 clock2 redis) = redis.
Proof.
  pose proof (limiter_cases ip clock1 clock2 redis) as H.
  destruct (customRedisRateLimiter ip clock1 clock2 redis) as [[| |] redis'];
    cbn [fst snd is_deny]; try discriminate.
  intros _. now destruct H as (_ & _ & ->).
Qed.

Lemma deny_leaves_store_witness :
  is_deny (fst (customRedisRateLimiter "C" 5000 5000
                  (with_log "C" [mkBucket 0 110] empty_redis))) = true
  /\ snd (customRedisRateLimiter "C" 5000 5000 (with_log "C" [mkBucket 0 110] empty_redis))
     = with_log "C" [mkBucket 0 110] empty_redis.
Proof.
  split; [vm_compute; reflexivity | apply deny_leaves_store; vm_compute; reflexivity].
Defined.

(** C10: when the stored value is the text of an empty array, the
    evaluation is neither Allow nor Deny: reading the last bucket's
    timestamp throws a TypeError, which is handed to [next], and the store
    is left as it was. *)
Theorem empty_log_fails (ip : string) (clock1 clock2 : Z) (redis : Redis) :
  getAsync ip redis = Some (JSON_stringify (DArray [])) ->
  customRedisRateLimiter ip clock1 clock2 redis = (Fail TypeError, redis).
Proof. intros Hget. unfold customRedisRateLimiter. now rewrite Hget. Qed.

Lemma empty_log_fails_witness :
  getAsync "C" (store_holding "C" (JSON_stringify (DArray [])))
  = Some (JSON_stringify (DArray []))
  /\ customRedisRateLimiter "C" 5000 5000 (store_holding "C" (JSON_stringify (DArray [])))
     = (Fail TypeError, store_holding "C" (JSON_stringify (DArray []))).
Proof.
  split; [vm_compute; reflexivity | apply empty_log_fails; vm_compute; reflexivity].
Defined.

(** C4: for every stored log (buckets whose counts are not negative) and
    every clock reading, the decision is Deny exactly when the counts of
    the buckets whose timestamp is greater than [now - windowSize] sum to
    at least [maxRequests]; and of 111 requests one second apart from a
    cold start, the first 110 are allowed and the 111th is denied with
    the limit 110 and the window 24. By [rounded_decision] the comparison
    is the same on the total as the code rounds it. *)
Theorem deny_iff_window_full :
  (forall (ip : string) (clock1 clock2 : Z) (redis : Redis) (log : list Bucket),
      counts_nonneg log = true ->
      is_deny (fst (customRedisRateLimiter ip clock1 clock2 (with_log ip log redis)))
      = (maxRequests <=? sumCounts (bucketsAfter (seconds clock2 - windowSize) log)))
  /\ fst (run "C" (every 1 111 0) empty_redis) = (repeat Allow 110 ++ [Deny 110 24])%list.
Proof.
  split; [|vm_compute; reflexivity].
  intros ip clock1 clock2 redis log _.
  rewrite (limiter_on_log ip clock1 clock2 _ log) by apply getAsync_with_log.
  rewrite <- totalAfter_sum.
  destruct (maxRequests <=? totalAfter (seconds clock2 - windowSize) log); [reflexivity|].
  now destruct log.
Qed.

Lemma deny_iff_window_full_witness :
  counts_nonneg [mkBucket 0 109; mkBucket 3700 1] = true
  /\ is_deny (fst (customRedisRateLimiter "C" 5000000 5000000
                     (with_log "C" [mkBucket 0 109; mkBucket 3700 1] empty_redis)))
     = (maxRequests
        <=? sumCounts (bucketsAfter (seconds 5000000 - windowSize)
                         [mkBucket 0 109; mkBucket 3700 1])).
Proof.
  split; [reflexivity | apply (proj1 deny_iff_window_full); reflexivity].
Defined.

(** ** The timestamp of an appended bucket *)

(** C2: on the log [{0, 2}], the request at second 3700 is allowed and a
    bucket is appended, but its timestamp is 100, the request time less
    the compaction interval, and not 3700: the stored log is
    [{0, 2}, {100, 1}]. *)
Theorem appended_bucket_is_one_interval_early :
  customRedisRateLimiter "C" 3700000 3700000 (with_log "C" [mkBucket 0 2] empty_redis)
  = (Allow,
     setAsync "C" (stored_log [mkBucket 0 2; mkBucket 100 1])
       (with_log "C" [mkBucket 0 2] empty_redis))
  /\ stored_log [mkBucket 0 2; mkBucket 100 1] <> stored_log [mkBucket 0 2; mkBucket 3700 1].
Proof.
  split; [vm_compute; reflexivity|].
  intros H. apply stored_log_inj in H. discriminate.
Qed.

(** The same for every log: the bucket appended by an allowed request at
    [now] carries [now - compactionInterval]. *)
Lemma appended_bucket_time (now : Z) (log : list Bucket) (b : Bucket) :
  last log = Some b ->
  requestTimeStamp b <= now - compactionInterval ->
  updated_log now log = (log ++ [mkBucket (now - compactionInterval) 1])%list.
Proof.
  intros Hlast Hle. unfold updated_log. rewrite Hlast.
  destruct (requestTimeStamp b >? now - compactionInterval) eqn:E; [lia|reflexivity].
Qed.

(** ** Stored values that are not logs, and the client key *)

(** C8, as stated, fails: the stored text [[{}]] is not a log, yet the
    evaluation allows the request and writes the array back with a bucket
    appended. *)
Lemma array_of_non_buckets_is_allowed :
  valid_log (JsonText (DArray [EObject []])) = false
  /\ customRedisRateLimiter "C" 1700000000000 1700000000000
       (store_holding "C" (JsonText (DArray [EObject []])))
     = (Allow,
        setAsync "C" (JsonText (DArray [EObject []; entry 1699996400 1]))
          (store_holding "C" (JsonText (DArray [EObject []])))).
Proof. split; vm_compute; reflexivity. Qed.

(** C8, amended: when the stored value is not JSON, or is the text of
    something else than a non-empty array without [null] elements, the
    evaluation is neither Allow nor Deny: the error thrown is handed to
    [next], and the store is left as it was, with no log put in place of
    the stored value. *)
Theorem unusable_record_fails (ip : string) (clock1 clock2 : Z) (redis : Redis)
  (record : stored) :
  getAsync ip redis = Some record ->
  unusable record = true ->
  exists error, customRedisRateLimiter ip clock1 clock2 redis = (Fail error, redis).
Proof.
  intros Hget Hbad. unfold customRedisRateLimiter. rewrite Hget.
  destruct record as [text|[| |props|entries]];
    try (eexists; reflexivity).
  destruct entries as [|e entries]; [eexists; reflexivity|].
  exists TypeError. unfold evaluate_record. cbn [JSON_parse bind Array_filter].
  rewrite filter_throws_on_null; [reflexivity| |reflexivity|exact Hbad].
  intros [| |props]; cbn [get_prop bind]; eauto.
Qed.

Lemma unusable_record_fails_witness :
  getAsync "C" (store_holding "C" (Malformed "{oops")) = Some (Malformed "{oops")
  /\ unusable (Malformed "{oops") = true
  /\ exists error,
       customRedisRateLimiter "C" 5000 5000 (store_holding "C" (Malformed "{oops"))
       = (Fail error, store_holding "C" (Malformed "{oops")).
Proof.
  split; [vm_compute; reflexivity|]. split; [reflexivity|].
  apply (unusable_record_fails "C" 5000 5000 _ (Malformed "{oops"));
    [vm_compute; reflexivity | reflexivity].
Defined.

(** C9, as stated, fails: with the empty string as client key and an
    empty store, the evaluation is carried out: it allows the request and
    stores a one-bucket log under the empty key. *)
Lemma empty_key_is_evaluated :
  customRedisRateLimiter "" 5000 5000 empty_redis
  = (Allow, setAsync "" (JSON_stringify (DArray [entry 5 1])) empty_redis)
  /\ getAsync "" (snd (customRedisRateLimiter "" 5000 5000 empty_redis))
     = Some (stored_log [mkBucket 5 1]).
Proof. split; vm_compute; reflexivity. Qed.

(** C9, amended: the client key is not validated. The evaluation for the
    empty key is the evaluation for any other key: when the store holds
    under the empty key what another store holds under [ip], the two
    evaluations take the same decision and leave the same value under
    their key. *)
Theorem empty_key_like_any_key (ip : string) (clock1 clock2 : Z) (redis redis' : Redis) :
  getAsync "" redis = getAsync ip redis' ->
  fst (customRedisRateLimiter "" clock1 clock2 redis)
  = fst (customRedisRateLimiter ip clock1 clock2 redis')
  /\ getAsync "" (snd (customRedisRateLimiter "" clock1 clock2 redis))
     = getAsync ip (snd (customRedisRateLimiter ip clock1 clock2 redis')).
Proof.
  intros Hget. unfold customRedisRateLimiter. rewrite Hget.
  destruct (getAsync ip redis') as [record|] eqn:Hget'.
  - pose proof (evaluate_record_key "" ip (Moment.moment clock1) clock2 record redis redis')
      as H.
    destruct (evaluate_record "" _ _ _ _) as [[d s]|e],
             (evaluate_record ip _ _ _ _) as [[d' s']|e']; try contradiction.
    + destruct H as [-> [(value & -> & ->)|[-> ->]]]; cbn [fst snd].
      * now rewrite !getAsync_setAsync.
      * now rewrite Hget, Hget'.
    + subst e'. cbn [fst snd]. now rewrite Hget, Hget'.
  - cbn [fst snd]. now rewrite !getAsync_setAsync.
Qed.

Lemma empty_key_like_any_key_witness :
  getAsync "" empty_redis = getAsync "C" empty_redis
  /\ fst (customRedisRateLimiter "" 5000 5000 empty_redis)
     = fst (customRedisRateLimiter "C" 5000 5000 empty_redis)
  /\ getAsync "" (snd (customRedisRateLimiter "" 5000 5000 empty_redis))
     = getAsync "C" (snd (customRedisRateLimiter "C" 5000 5000 empty_redis)).
Proof.
  split; [reflexivity | apply empty_key_like_any_key; reflexivity].
Defined.

(** ** The number of stored buckets *)

Lemma run_bucket_count (ip : string) (evaluations : list Clocks) (redis : Redis) :
  (bucket_count (getAsync ip redis)
   <= bucket_count (getAsync ip (snd (run ip evaluations redis)))
   <= bucket_count (getAsync ip redis) + count_allows (fst (run ip evaluations redis)))%nat.
Proof.
  revert redis. induction evaluations as [|[clock1 clock2] rest IH]; intros redis.
  - simpl. lia.
  - cbn [run].
    pose proof (limiter_bucket_count ip clock1 clock2 redis) as Hstep.
    destruct (customRedisRateLimiter ip clock1 clock2 redis) as [d redis1].
    specialize (IH redis1).
    destruct (run ip rest redis1) as [ds redis2].
    cbn [fst snd count_allows] in *.
    destruct (is_allow d); lia.
Qed.

(** C3, as stated, fails: 26 requests two hours apart from a cold start
    are all allowed and leave 26 buckets, more than
    [ceil(windowSize / compactionInterval) + 1 = 25]. *)
Lemma bucket_bound_exceeded :
  fst (run "C" (every 7200 26 0) empty_redis) = repeat Allow 26
  /\ bucket_count (getAsync "C" (snd (run "C" (every 7200 26 0) empty_redis))) = 26%nat
  /\ bucket_bound = 25.
Proof. repeat split; vm_compute; reflexivity. Qed.

(** C3, amended: no evaluation removes a bucket and each Allow decision
    adds at most one, so after any sequence of evaluations for a client
    key the number of stored buckets is at least what it was and at most
    what it was plus the number of Allow decisions; from a cold start it
    is at most the number of Allow decisions. *)
Theorem bucket_count_grows_with_allows (ip : string) (evaluations : list Clocks)
  (redis : Redis) :
  (bucket_count (getAsync ip redis)
   <= bucket_count (getAsync ip (snd (run ip evaluations redis)))
   <= bucket_count (getAsync ip redis) + count_allows (fst (run ip evaluations redis)))%nat
  /\ (bucket_count (getAsync ip (snd (run ip evaluations empty_redis)))
      <= count_allows (fst (run ip evaluations empty_redis)))%nat.
Proof.
  split; [apply run_bucket_count|].
  pose proof (run_bucket_count ip evaluations empty_redis) as H.
  change (bucket_count (getAsync ip empty_redis)) with 0%nat in H. lia.
Qed.

(** ** Allow decisions in a time interval *)

Lemma totalAfter_app (windowStart : Z) (l l' : list Bucket) :
  totalAfter windowStart (l ++ l')%list
  = totalAfter windowStart l + totalAfter windowStart l'.
Proof. induction l as [|b l IH]; simpl; lia. Qed.

Lemma insert_last (l : list Bucket) (b b' : Bucket) :
  (<[Nat.pred (length (l ++ [b])) := b']> (l ++ [b]) = l ++ [b'])%list.
Proof.
  rewrite length_app; simpl.
  replace (Nat.pred (length l + 1)) with (length l + 0)%nat by lia.
  now rewrite insert_app_r.
Qed.

(** An admitted request adds one to the total after every instant that
    lies more than a compaction interval before it. *)
Lemma updated_log_total (windowStart now : Z) (log : list Bucket) (b : Bucket) :
  last log = Some b ->
  totalAfter windowStart log + (if now - compactionInterval >? windowStart then 1 else 0)
  <= totalAfter windowStart (updated_log now log).
Proof.
  intros Hlast. unfold updated_log. rewrite Hlast.
  apply last_Some in Hlast as [l ->].
  destruct (requestTimeStamp b >? now - compactionInterval) eqn:E.
  - rewrite insert_last, !totalAfter_app. simpl.
    destruct (requestTimeStamp b >? windowStart) eqn:E1,
             (now - compactionInterval >? windowStart) eqn:E2; lia.
  - rewrite !totalAfter_app. simpl. lia.
Qed.

Lemma admittedFrom_recorded (from windowStart : Z) (admitted : list Z) :
  windowStart + compactionInterval < from ->
  admittedFrom from admitted <= recordedAfter windowStart admitted.
Proof.
  intros Hlt. induction admitted as [|a rest IH]; simpl; [lia|].
  destruct (from <=? a) eqn:E1, (a - compactionInterval >? windowStart) eqn:E2; lia.
Qed.

Lemma allows_within_nonneg (from to : Z) (evaluations : list Clocks) (ds : list Decision) :
  0 <= allows_within from to evaluations ds.
Proof.
  revert ds. induction evaluations as [|[c1 c2] rest IH]; intros [|d ds]; simpl; try lia.
  specialize (IH ds). destruct (_ && _); lia.
Qed.

Lemma accounted_step (ip : string) (clock1 clock2 : Z) (admitted : list Z) (redis : Redis) :
  accounted ip admitted redis ->
  let (d, redis') := customRedisRateLimiter ip clock1 clock2 redis in
  if is_allow d
  then accounted ip (seconds clock1 :: admitted) redis'
       /\ recordedAfter (seconds clock2 - windowSize) admitted < maxRequests
  else redis' = redis.
Proof.
  unfold accounted. destruct (getAsync ip redis) as [record|] eqn:Hget.
  - intros (log & -> & Hacc).
    rewrite (limiter_on_log ip clock1 clock2 redis log Hget).
    destruct (maxRequests <=? totalAfter (seconds clock2 - windowSize) log) eqn:Hfull;
      [reflexivity|].
    destruct log as [|b0 log0]; [reflexivity|].
    cbn [is_allow]. rewrite getAsync_setAsync. split.
    + eexists; split; [reflexivity|]. intros windowStart.
      destruct (last (b0 :: log0)) as [b|] eqn:Hlast.
      * pose proof (updated_log_total windowStart (seconds clock1) _ _ Hlast).
        specialize (Hacc windowStart). cbn [recordedAfter]. lia.
      * apply last_None in Hlast. discriminate.
    + specialize (Hacc (seconds clock2 - windowSize)). lia.
  - intros ->. rewrite limiter_cold by exact Hget.
    cbn [is_allow]. rewrite getAsync_setAsync. split.
    + eexists; split; [reflexivity|]. intros windowStart. simpl.
      unfold compactionInterval, WINDOW_LOG_INTERVAL_IN_HOURS.
      destruct (seconds clock1 - 1 * 3600 >? windowStart) eqn:E1,
               (seconds clock1 >? windowStart) eqn:E2; lia.
    + simpl. unfold maxRequests, MAX_WINDOW_REQUEST_COUNT. lia.
Qed.

Lemma admittedFrom_cons_le (from a : Z) (admitted : list Z) :
  admittedFrom from admitted <= admittedFrom from (a :: admitted).
Proof. simpl. destruct (from <=? a); lia. Qed.

(** In a run from a store that accounts for the requests admitted so
    far, the Allow decisions inside an interval shorter than
    [windowSize - compactionInterval], together with the earlier admitted
    requests not before its start, stay within [maxRequests]. *)
Lemma run_allows_bounded (ip : string) (from : Z) (evaluations : list Clocks) :
  forall (admitted : list Z) (redis : Redis),
    accounted ip admitted redis ->
    let n := allows_within from (from + (windowSize - compactionInterval))
               evaluations (fst (run ip evaluations redis)) in
    n = 0 \/ admittedFrom from admitted + n <= maxRequests.
Proof.
  induction evaluations as [|[clock1 clock2] rest IH]; intros admitted redis Hacc.
  - left. reflexivity.
  - cbn [run].
    pose proof (accounted_step ip clock1 clock2 admitted redis Hacc) as Hstep.
    destruct (customRedisRateLimiter ip clock1 clock2 redis) as [d redis1].
    destruct (is_allow d) eqn:Hd.
    + destruct Hstep as [Hacc1 Hroom].
      specialize (IH _ _ Hacc1).
      destruct (run ip rest redis1) as [ds redis2].
      cbn [fst allows_within] in *. rewrite Hd. cbn [andb].
      pose proof (allows_within_nonneg from (from + (windowSize - compactionInterval))
                    rest ds) as Hnn.
      pose proof (admittedFrom_cons_le from (seconds clock1) admitted) as Hmono.
      destruct ((from <=? seconds clock1)
                && (seconds clock2 <? from + (windowSize - compactionInterval))) eqn:Hin.
      * right. apply andb_true_iff in Hin as [Hfrom Hto].
        destruct IH as [IH|IH].
        -- pose proof (admittedFrom_recorded from (seconds clock2 - windowSize) admitted)
             as Hrec.
           lia.
        -- cbn [admittedFrom] in IH. rewrite Hfrom in IH. lia.
      * destruct IH as [IH|IH]; [left|right]; lia.
    + subst redis1. specialize (IH _ _ Hacc).
      destruct (run ip rest redis) as [ds redis2].
      cbn [fst allows_within] in *. rewrite Hd. cbn [andb].
      destruct IH as [IH|IH]; [left|right]; lia.
Qed.

(** C1, as stated, fails: after a first request at second 0, 109 requests
    at second 3599 are folded into the bucket of second 0, which leaves
    the window at second 86401; two more requests are then allowed, so
    111 requests are allowed within the 86400 seconds from second 3599. *)
Lemma window_bound_exceeded :
  allows_within 3599 (3599 + windowSize)
    (at_second 0 :: repeat (at_second 3599) 109 ++ [at_second 86401; at_second 86401])
    (fst (run "C"
            (at_second 0 :: repeat (at_second 3599) 109
               ++ [at_second 86401; at_second 86401])
            empty_redis))
  = 111
  /\ maxRequests = 110.
Proof. split; vm_compute; reflexivity. Qed.

(** C1, amended: for a single client key evaluated sequentially from a
    cold start, over any sequence of evaluations and for any second
    [from], the Allow decisions of the evaluations that read both their
    clocks (at entry and for the window start) at seconds [s] with
    [from <= s < from + (windowSize - compactionInterval)] number at most
    [maxRequests]. The range is half-open and in whole seconds, and both
    readings count: [closed_range_exceeds] and [late_reading_exceeds]
    show that neither can be dropped. *)
Theorem allows_bounded_in_short_window (ip : string) (from : Z)
  (evaluations : list Clocks) (redis : Redis) :
  getAsync ip redis = None ->
  allows_within from (from + (windowSize - compactionInterval))
    evaluations (fst (run ip evaluations redis))
  <= maxRequests.
Proof.
  intros Hget.
  assert (accounted ip [] redis) as Hacc by (unfold accounted; now rewrite Hget).
  pose proof (run_allows_bounded ip from evaluations [] redis Hacc) as H.
  cbn [admittedFrom] in H. cbv zeta in H.
  unfold maxRequests, MAX_WINDOW_REQUEST_COUNT in *.
  destruct H as [H|H]; lia.
Qed.

Lemma allows_bounded_in_short_window_witness :
  getAsync "C" empty_redis = None
  /\ allows_within 0 (0 + (windowSize - compactionInterval))
       (every 1 111 0) (fst (run "C" (every 1 111 0) empty_redis))
     <= maxRequests.
Proof.
  split; [reflexivity | apply allows_bounded_in_short_window; reflexivity].
Defined.

(** The bound fails on the closed range of the same length: after a
    request at second 0, 109 requests at second 3600 and 110 at second
    86400 are all allowed, 219 with [3600 <= s <= 86400]. *)
Lemma closed_range_exceeds :
  allows_within 3600 (3600 + (windowSize - compactionInterval) + 1)
    (at_second 0 :: repeat (at_second 3600) 109 ++ repeat (at_second 86400) 110)
    (fst (run "C"
            (at_second 0 :: repeat (at_second 3600) 109 ++ repeat (at_second 86400) 110)
            empty_redis))
  = 219.
Proof. vm_compute. reflexivity. Qed.

(** The bound fails when only the reading at entry is asked to lie in the
    range: after a request at second 0 and 110 at second 90000, an
    evaluation entered in second 172799 that reads its window start in
    second 172800 is allowed too: 111 entered in the 82800 seconds from
    90000, all 112 decisions being Allow. *)
Lemma late_reading_exceeds :
  fst (run "C"
         (at_second 0 :: repeat (at_second 90000) 110 ++ [(172799999, 172800000)])
         empty_redis)
  = repeat Allow 112
  /\ forallb
       (fun clocks =>
          (90000 <=? seconds (fst clocks))
          && (seconds (fst clocks) <? 90000 + (windowSize - compactionInterval)))
       (repeat (at_second 90000) 110 ++ [(172799999, 172800000)])
     = true.
Proof. split; vm_compute; reflexivity. Qed.


(** ** The order of the stored buckets *)

Lemma ordered_by_snoc (rel : Z -> Z -> bool) (l : list Bucket) (b n : Bucket) :
  ordered_by rel (l ++ [b]) = true ->
  rel (requestTimeStamp b) (requestTimeStamp n) = true ->
  ordered_by rel ((l ++ [b]) ++ [n]) = true.
Proof.
  intros Hord Hrel. induction l as [|a l IH].
  - simpl. now rewrite Hrel.
  - destruct l as [|a' l'].
    + simpl in *. now rewrite Hrel.
    + cbn [app ordered_by] in *.
      apply andb_true_iff in Hord as [Ha Hord].
      rewrite Ha. cbn [andb]. now apply IH.
Qed.

Lemma ordered_by_replace_last (rel : Z -> Z -> bool) (l : list Bucket) (b b' : Bucket) :
  ordered_by rel (l ++ [b]) = true ->
  requestTimeStamp b' = requestTimeStamp b ->
  ordered_by rel (l ++ [b']) = true.
Proof.
  intros Hord Heq. induction l as [|a l IH].
  - reflexivity.
  - destruct l as [|a' l'].
    + simpl in *. now rewrite Heq.
    + cbn [app ordered_by] in *.
      apply andb_true_iff in Hord as [Ha Hord].
      rewrite Ha. cbn [andb]. now apply IH.
Qed.

Lemma counts_positive_app (l l' : list Bucket) :
  counts_positive (l ++ l') = counts_positive l && counts_positive l'.
Proof. apply forallb_app. Qed.

Lemma updated_log_ordered (now : Z) (log : list Bucket) :
  log <> [] -> nondecreasing log = true -> counts_positive log = true ->
  updated_log now log <> []
  /\ nondecreasing (updated_log now log) = true
  /\ counts_positive (updated_log now log) = true.
Proof.
  intros Hne Hord Hpos. unfold updated_log.
  destruct (last log) as [b|] eqn:Hlast; [|now apply last_None in Hlast].
  apply last_Some in Hlast as [l ->].
  rewrite counts_positive_app in Hpos. apply andb_true_iff in Hpos as [Hl Hb].
  simpl in Hb. rewrite andb_true_r in Hb. apply Z.leb_le in Hb.
  destruct (requestTimeStamp b >? now - compactionInterval) eqn:E.
  - rewrite insert_last. split; [now destruct l|]. split.
    + now apply (ordered_by_replace_last _ l b).
    + rewrite counts_positive_app, Hl. simpl. rewrite andb_true_r.
      apply Z.leb_le. lia.
  - split; [now destruct l|]. split.
    + apply ordered_by_snoc; [exact Hord|]. apply Z.leb_le. simpl. lia.
    + rewrite !counts_positive_app, Hl. simpl. rewrite andb_true_r.
      apply Z.leb_le in Hb. now rewrite Hb.
Qed.

Lemma limiter_keeps_order (ip : string) (clock1 clock2 : Z) (redis : Redis) :
  holds_ordered_log ip redis ->
  holds_ordered_log ip (snd (customRedisRateLimiter ip clock1 clock2 redis)).
Proof.
  unfold holds_ordered_log at 1.
  destruct (getAsync ip redis) as [record|] eqn:Hget.
  - intros (log & -> & Hne & Hord & Hpos).
    rewrite (limiter_on_log ip clock1 clock2 redis log Hget).
    destruct (maxRequests <=? _); cbn [snd].
    + unfold holds_ordered_log. rewrite Hget. eauto.
    + destruct log as [|b0 log0]; [contradiction|]. cbn [snd].
      unfold holds_ordered_log. rewrite getAsync_setAsync.
      eexists; split; [reflexivity|]. now apply updated_log_ordered.
  - intros _. rewrite limiter_cold by exact Hget. cbn [snd].
    unfold holds_ordered_log. rewrite getAsync_setAsync.
    eexists; split; [reflexivity|]. repeat split. discriminate.
Qed.

(** What the code keeps of the order: after any sequence of evaluations
    from a cold start, whatever the clock readings, the stored log is not
    empty, its timestamps never decrease and its counts are at least 1. *)
Lemma run_keeps_order (ip : string) (evaluations : list Clocks) (redis : Redis) :
  holds_ordered_log ip redis ->
  holds_ordered_log ip (snd (run ip evaluations redis)).
Proof.
  revert redis. induction evaluations as [|[clock1 clock2] rest IH]; intros redis H.
  - exact H.
  - cbn [run].
    pose proof (limiter_keeps_order ip clock1 clock2 redis H) as Hstep.
    destruct (customRedisRateLimiter ip clock1 clock2 redis) as [d redis1].
    specialize (IH redis1 Hstep).
    now destruct (run ip rest redis1) as [ds redis2].
Qed.

(** C7: after the two allowed requests at the seconds 0 and 3600 from a
    cold start, the stored log is [{0, 1}, {0, 1}]: two buckets with the
    same timestamp, so the buckets are not strictly ordered. *)
Theorem buckets_one_hour_apart_share_timestamp :
  run "C" [at_second 0; at_second 3600] empty_redis
  = ([Allow; Allow],
     mkRedis {["C" := stored_log [mkBucket 0 1; mkBucket 0 1]]} 2)
  /\ strictly_ordered [mkBucket 0 1; mkBucket 0 1] = false.
Proof. split; vm_compute; reflexivity. Qed.

(** ** The store around one evaluation *)

Lemma getAsync_setAsync_ne (ip ip' : string) (value : stored) (redis : Redis) :
  ip <> ip' -> getAsync ip' (setAsync ip value redis) = getAsync ip' redis.
Proof. intros Hne. unfold getAsync, setAsync; simpl. now apply lookup_insert_ne. Qed.

Lemma limiter_after_get (ip : string) (clock1 clock2 : Z) (redis : Redis) :
  customRedisRateLimiter ip clock1 clock2 redis
  = after_get ip clock1 clock2 (getAsync ip redis) redis.
Proof. reflexivity. Qed.

(** What an invocation decides and writes is fixed by the value it read
    and by its clocks: the key and the store only say where the value
    goes. It writes exactly when it allows. *)
Lemma after_get_shape (clock1 clock2 : Z) (record : option stored) :
  exists d value,
    is_allow d = (if value is Some _ then true else false)
    /\ forall ip redis,
        after_get ip clock1 clock2 record redis = (d, write_back ip value redis).
Proof.
  unfold after_get. destruct record as [record|];
    [|exists Allow; eexists (Some _); split; [reflexivity|]; intros; reflexivity].
  unfold evaluate_record.
  destruct record as [text|data]; cbn [JSON_parse bind];
    [exists (Fail SyntaxError), None; split; [reflexivity|]; intros; reflexivity|].
  case_bind; [|eexists (Fail _), None; split; [reflexivity|]; intros; reflexivity].
  case_bind; [|eexists (Fail _), None; split; [reflexivity|]; intros; reflexivity].
  destruct (js_ge _ _);
    [eexists (Deny _ _), None; split; [reflexivity|]; intros; reflexivity|].
  destruct data as [| |props|entries];
    try (eexists (Fail _), None; split; [reflexivity|]; intros; reflexivity).
  case_bind; [|eexists (Fail _), None; split; [reflexivity|]; intros; reflexivity].
  destruct (js_gt _ _).
  - destruct (last entries) as [e|];
      [|eexists (Fail _), None; split; [reflexivity|]; intros; reflexivity].
    destruct (increment_requestCount e) as [e'|]; cbn [bind];
      [|eexists (Fail _), None; split; [reflexivity|]; intros; reflexivity].
    exists Allow. eexists (Some _). split; [reflexivity|]. intros. reflexivity.
  - cbn [bind]. exists Allow. eexists (Some _). split; [reflexivity|]. intros. reflexivity.
Qed.

(** X1: an evaluation for one client key leaves the value stored under
    every other key as it was, over any sequence of evaluations. *)
Theorem other_keys_untouched (ip ip' : string) (evaluations : list Clocks) (redis : Redis) :
  ip <> ip' ->
  getAsync ip' (snd (run ip evaluations redis)) = getAsync ip' redis.
Proof.
  intros Hne. revert redis.
  induction evaluations as [|[clock1 clock2] rest IH]; intros redis; [reflexivity|].
  cbn [run].
  pose proof (limiter_cases ip clock1 clock2 redis) as Hstep.
  destruct (customRedisRateLimiter ip clock1 clock2 redis) as [d redis1].
  specialize (IH redis1). destruct (run ip rest redis1) as [ds redis2].
  cbn [snd] in *. rewrite IH.
  destruct d as [|limit hours|error].
  - destruct Hstep as [value ->]. now apply getAsync_setAsync_ne.
  - now destruct Hstep as (_ & _ & ->).
  - now subst redis1.
Qed.

Lemma other_keys_untouched_witness :
  "C" <> "D"
  /\ getAsync "D" (snd (run "C" (every 1 3 0) (store_holding "D" (Malformed "x"))))
     = getAsync "D" (store_holding "D" (Malformed "x")).
Proof. split; [discriminate | apply other_keys_untouched; discriminate]. Defined.

(** X2: every Allow decision executes exactly one SET command and no
    other decision executes any: after a sequence of evaluations the
    number of SET commands has grown by the number of Allow decisions. *)
Theorem one_set_per_allow (ip : string) (evaluations : list Clocks) (redis : Redis) :
  set_commands (snd (run ip evaluations redis))
  = (set_commands redis + count_allows (fst (run ip evaluations redis)))%nat.
Proof.
  revert redis.
  induction evaluations as [|[clock1 clock2] rest IH]; intros redis; [simpl; lia|].
  cbn [run].
  pose proof (limiter_cases ip clock1 clock2 redis) as Hstep.
  destruct (customRedisRateLimiter ip clock1 clock2 redis) as [d redis1].
  specialize (IH redis1). destruct (run ip rest redis1) as [ds redis2].
  cbn [fst snd count_allows] in *. rewrite IH.
  destruct d as [|limit hours|error]; cbn [is_allow].
  - destruct Hstep as [value ->]. simpl. lia.
  - destruct Hstep as (_ & _ & ->). lia.
  - subst redis1. lia.
Qed.

(** X3: when the evaluation fails (the error goes to [next]), the store
    is left as it was: no value is changed and no SET command executed. *)
Theorem failure_leaves_store (ip : string) (clock1 clock2 : Z) (redis : Redis) :
  is_fail (fst (customRedisRateLimiter ip clock1 clock2 redis)) = true ->
  snd (customRedisRateLimiter ip clock1 clock2 redis) = redis.
Proof.
  pose proof (limiter_cases ip clock1 clock2 redis) as H.
  destruct (customRedisRateLimiter ip clock1 clock2 redis) as [[| |] redis'];
    cbn [fst snd is_fail]; try discriminate.
  intros _. exact H.
Qed.

Lemma failure_leaves_store_witness :
  is_fail (fst (customRedisRateLimiter "C" 5000 5000
                  (store_holding "C" (JsonText (DArray [ENull]))))) = true
  /\ snd (customRedisRateLimiter "C" 5000 5000 (store_holding "C" (JsonText (DArray [ENull]))))
     = store_holding "C" (JsonText (DArray [ENull])).
Proof.
  split; [vm_compute; reflexivity | apply failure_leaves_store; vm_compute; reflexivity].
Defined.

(** X4: no evaluation removes a key: a key that holds a value before a
    sequence of evaluations, for that key or another, holds one after. *)
Theorem keys_are_never_removed (ip key : string) (evaluations : list Clocks)
  (redis : Redis) :
  is_Some (getAsync key redis) ->
  is_Some (getAsync key (snd (run ip evaluations redis))).
Proof.
  revert redis.
  induction evaluations as [|[clock1 clock2] rest IH]; intros redis Hsome; [exact Hsome|].
  cbn [run].
  pose proof (limiter_cases ip clock1 clock2 redis) as Hstep.
  destruct (customRedisRateLimiter ip clock1 clock2 redis) as [d redis1].
  specialize (IH redis1). destruct (run ip rest redis1) as [ds redis2].
  cbn [snd] in *. apply IH.
  destruct d as [|limit hours|error].
  - destruct Hstep as [value ->].
    destruct (decide (ip = key)) as [->|Hne].
    + rewrite getAsync_setAsync. eauto.
    + now rewrite getAsync_setAsync_ne.
  - now destruct Hstep as (_ & _ & ->).
  - now subst redis1.
Qed.

Lemma keys_are_never_removed_witness :
  is_Some (getAsync "C" (store_holding "C" (Malformed "x")))
  /\ is_Some (getAsync "C" (snd (run "C" (every 1 3 0) (store_holding "C" (Malformed "x"))))).
Proof.
  split; [vm_compute; eauto | apply keys_are_never_removed; vm_compute; eauto].
Defined.

Lemma getAsync_write_back_ne (ip ip' : string) (value : option stored) (redis : Redis) :
  ip <> ip' -> getAsync ip' (write_back ip value redis) = getAsync ip' redis.
Proof. intros Hne. destruct value; [now apply getAsync_setAsync_ne | reflexivity]. Qed.

Lemma write_back_commute (ip ip' : string) (v v' : option stored) (redis : Redis) :
  ip <> ip' ->
  write_back ip' v' (write_back ip v redis) = write_back ip v (write_back ip' v' redis).
Proof.
  intros Hne. destruct v, v'; try reflexivity.
  unfold write_back, setAsync; simpl. f_equal. now apply insert_insert_ne.
Qed.

(** X5: evaluations for two different client keys commute: in either
    order each takes the same decision, and the store they leave is the
    same. *)
Theorem distinct_keys_commute (ip ip' : string) (clock1 clock2 clock1' clock2' : Z)
  (redis : Redis) :
  ip <> ip' ->
  let first := customRedisRateLimiter ip clock1 clock2 redis in
  let second := customRedisRateLimiter ip' clock1' clock2' (snd first) in
  let first' := customRedisRateLimiter ip' clock1' clock2' redis in
  let second' := customRedisRateLimiter ip clock1 clock2 (snd first') in
  fst first = fst second' /\ fst second = fst first' /\ snd second = snd second'.
Proof.
  intros Hne. cbv zeta. rewrite !limiter_after_get.
  destruct (after_get_shape clock1 clock2 (getAsync ip redis)) as (d & v & _ & H).
  destruct (after_get_shape clock1' clock2' (getAsync ip' redis)) as (d' & v' & _ & H').
  rewrite H, H'. cbn [fst snd].
  rewrite !getAsync_write_back_ne by (first [exact Hne | now apply not_eq_sym]).
  rewrite H, H'. cbn [fst snd].
  repeat split. now apply write_back_commute.
Qed.

Lemma distinct_keys_commute_witness :
  "C" <> "D"
  /\ fst (customRedisRateLimiter "C" 5000 5000 empty_redis)
     = fst (customRedisRateLimiter "C" 5000 5000
              (snd (customRedisRateLimiter "D" 7000 7000 empty_redis)))
  /\ fst (customRedisRateLimiter "D" 7000 7000
            (snd (customRedisRateLimiter "C" 5000 5000 empty_redis)))
     = fst (customRedisRateLimiter "D" 7000 7000 empty_redis)
  /\ snd (customRedisRateLimiter "D" 7000 7000
            (snd (customRedisRateLimiter "C" 5000 5000 empty_redis)))
     = snd (customRedisRateLimiter "C" 5000 5000
              (snd (customRedisRateLimiter "D" 7000 7000 empty_redis))).
Proof.
  split; [discriminate|].
  apply (distinct_keys_commute "C" "D" 5000 5000 7000 7000 empty_redis). discriminate.
Defined.

(** ** The two ways an allowed request is recorded *)

Lemma updated_log_increment (now : Z) (l : list Bucket) (b : Bucket) :
  now - compactionInterval < requestTimeStamp b ->
  updated_log now (l ++ [b])
  = (l ++ [mkBucket (requestTimeStamp b) (requestCount b + 1)])%list.
Proof.
  intros Hin. unfold updated_log. rewrite last_snoc.
  destruct (requestTimeStamp b >? now - compactionInterval) eqn:E; [|lia].
  apply insert_last.
Qed.

Lemma updated_log_append (now : Z) (l : list Bucket) (b : Bucket) :
  requestTimeStamp b <= now - compactionInterval ->
  updated_log now (l ++ [b])
  = ((l ++ [b]) ++ [mkBucket (now - compactionInterval) 1])%list.
Proof. intros Hout. apply (appended_bucket_time now _ b); [apply last_snoc | exact Hout]. Qed.

Lemma limiter_allows_log (ip : string) (clock1 clock2 : Z) (redis : Redis)
  (l : list Bucket) (b : Bucket) :
  getAsync ip redis = Some (stored_log (l ++ [b])) ->
  totalAfter (seconds clock2 - windowSize) (l ++ [b]) < maxRequests ->
  customRedisRateLimiter ip clock1 clock2 redis
  = (Allow, setAsync ip (stored_log (updated_log (seconds clock1) (l ++ [b]))) redis).
Proof.
  intros Hget Hroom. rewrite (limiter_on_log ip clock1 clock2 redis _ Hget).
  destruct (maxRequests <=? _) eqn:E; [lia|]. now destruct l.
Qed.

(** X6: on a log whose counts are safe integers and not negative, when
    the window is not full and the last bucket started less than a
    compaction interval before the request, the request is allowed and
    folded into that bucket: its count grows by one, its timestamp and
    all earlier buckets stay as they are. *)
Theorem request_within_interval_increments (ip : string) (clock1 clock2 : Z)
  (redis : Redis) (l : list Bucket) (b : Bucket) :
  safe_counts (l ++ [b]) = true ->
  getAsync ip redis = Some (stored_log (l ++ [b])) ->
  totalAfter (seconds clock2 - windowSize) (l ++ [b]) < maxRequests ->
  seconds clock1 - compactionInterval < requestTimeStamp b ->
  customRedisRateLimiter ip clock1 clock2 redis
  = (Allow,
     setAsync ip
       (stored_log (l ++ [mkBucket (requestTimeStamp b) (requestCount b + 1)])) redis).
Proof.
  intros _ Hget Hroom Hin.
  rewrite (limiter_allows_log ip clock1 clock2 redis l b Hget Hroom).
  now rewrite updated_log_increment.
Qed.

Lemma request_within_interval_increments_witness :
  safe_counts ([] ++ [mkBucket 0 1]) = true
  /\ getAsync "C" (with_log "C" ([] ++ [mkBucket 0 1]) empty_redis)
  = Some (stored_log ([] ++ [mkBucket 0 1]))
  /\ totalAfter (seconds 30000 - windowSize) ([] ++ [mkBucket 0 1]) < maxRequests
  /\ seconds 30000 - compactionInterval < requestTimeStamp (mkBucket 0 1)
  /\ customRedisRateLimiter "C" 30000 30000 (with_log "C" ([] ++ [mkBucket 0 1]) empty_redis)
     = (Allow,
        setAsync "C"
          (stored_log ([] ++ [mkBucket (requestTimeStamp (mkBucket 0 1))
                                 (requestCount (mkBucket 0 1) + 1)]))
          (with_log "C" ([] ++ [mkBucket 0 1]) empty_redis)).
Proof.
  split; [vm_compute; reflexivity|].
  split; [vm_compute; reflexivity|]. split; [vm_compute; reflexivity|].
  split; [vm_compute; reflexivity|].
  apply request_within_interval_increments; vm_compute; reflexivity.
Defined.

Lemma request_after_interval_appends_aux (ip : string) (clock1 clock2 : Z)
  (redis : Redis) (l : list Bucket) (b : Bucket) :
  getAsync ip redis = Some (stored_log (l ++ [b])) ->
  totalAfter (seconds clock2 - windowSize) (l ++ [b]) < maxRequests ->
  requestTimeStamp b <= seconds clock1 - compactionInterval ->
  customRedisRateLimiter ip clock1 clock2 redis
  = (Allow,
     setAsync ip
       (stored_log ((l ++ [b]) ++ [mkBucket (seconds clock1 - compactionInterval) 1]))
       redis).
Proof.
  intros Hget Hroom Hout.
  rewrite (limiter_allows_log ip clock1 clock2 redis l b Hget Hroom).
  now rewrite updated_log_append.
Qed.

(** X7: on a log whose counts are safe integers and not negative, when
    the window is not full and the last bucket started a compaction
    interval or more before the request, the request is allowed and a
    bucket of count 1 is appended whose timestamp is the request's second
    less the compaction interval; the buckets already stored stay as
    they are. *)
Theorem request_after_interval_appends (ip : string) (clock1 clock2 : Z)
  (redis : Redis) (l : list Bucket) (b : Bucket) :
  safe_counts (l ++ [b]) = true ->
  getAsync ip redis = Some (stored_log (l ++ [b])) ->
  totalAfter (seconds clock2 - windowSize) (l ++ [b]) < maxRequests ->
  requestTimeStamp b <= seconds clock1 - compactionInterval ->
  customRedisRateLimiter ip clock1 clock2 redis
  = (Allow,
     setAsync ip
       (stored_log ((l ++ [b]) ++ [mkBucket (seconds clock1 - compactionInterval) 1]))
       redis).
Proof.
  intros _ Hget Hroom Hout. now apply request_after_interval_appends_aux.
Qed.

Lemma request_after_interval_appends_witness :
  safe_counts ([] ++ [mkBucket 0 2]) = true
  /\ getAsync "C" (with_log "C" ([] ++ [mkBucket 0 2]) empty_redis)
  = Some (stored_log ([] ++ [mkBucket 0 2]))
  /\ totalAfter (seconds 3700000 - windowSize) ([] ++ [mkBucket 0 2]) < maxRequests
  /\ requestTimeStamp (mkBucket 0 2) <= seconds 3700000 - compactionInterval
  /\ customRedisRateLimiter "C" 3700000 3700000
       (with_log "C" ([] ++ [mkBucket 0 2]) empty_redis)
     = (Allow,
        setAsync "C"
          (stored_log (([] ++ [mkBucket 0 2])
                         ++ [mkBucket (seconds 3700000 - compactionInterval) 1]))
          (with_log "C" ([] ++ [mkBucket 0 2]) empty_redis)).
Proof.
  split; [vm_compute; reflexivity|].
  split; [vm_compute; reflexivity|]. split; [vm_compute; reflexivity|].
  split; [vm_compute; discriminate|].
  apply request_after_interval_appends;
    first [vm_compute; reflexivity | vm_compute; discriminate].
Defined.

(** X8: a bucket that was appended is never incremented by a later
    request: on a log whose counts are safe integers and not negative,
    when a request at second [s] appends a bucket, an allowed request
    that follows at second [s] or later appends another one, so even two
    requests in the same second leave two buckets. *)
Theorem appended_bucket_is_never_incremented (ip : string)
  (clock1 clock2 clock1' clock2' : Z) (redis : Redis) (l : list Bucket) (b : Bucket) :
  let appended := mkBucket (seconds clock1 - compactionInterval) 1 in
  let appended' := mkBucket (seconds clock1' - compactionInterval) 1 in
  safe_counts (l ++ [b]) = true ->
  getAsync ip redis = Some (stored_log (l ++ [b])) ->
  requestTimeStamp b <= seconds clock1 - compactionInterval ->
  seconds clock1 <= seconds clock1' ->
  totalAfter (seconds clock2 - windowSize) (l ++ [b]) < maxRequests ->
  totalAfter (seconds clock2' - windowSize) ((l ++ [b]) ++ [appended]) < maxRequests ->
  fst (run ip [(clock1, clock2); (clock1', clock2')] redis) = [Allow; Allow]
  /\ getAsync ip (snd (run ip [(clock1, clock2); (clock1', clock2')] redis))
     = Some (stored_log (((l ++ [b]) ++ [appended]) ++ [appended'])).
Proof.
  intros appended appended' _ Hget Hout Hlater Hroom Hroom'. cbn [run].
  rewrite (request_after_interval_appends_aux ip clock1 clock2 redis l b Hget Hroom Hout).
  fold appended.
  rewrite (request_after_interval_appends_aux ip clock1' clock2' _ (l ++ [b]) appended);
    [| apply getAsync_setAsync | exact Hroom' | simpl; lia].
  fold appended'. cbn [fst snd]. split; [reflexivity|]. apply getAsync_setAsync.
Qed.

Lemma appended_bucket_is_never_incremented_witness :
  safe_counts ([] ++ [mkBucket 0 1]) = true
  /\ getAsync "C" (with_log "C" ([] ++ [mkBucket 0 1]) empty_redis)
  = Some (stored_log ([] ++ [mkBucket 0 1]))
  /\ requestTimeStamp (mkBucket 0 1) <= seconds 3600000 - compactionInterval
  /\ seconds 3600000 <= seconds 3600000
  /\ totalAfter (seconds 3600000 - windowSize) ([] ++ [mkBucket 0 1]) < maxRequests
  /\ totalAfter (seconds 3600000 - windowSize)
       (([] ++ [mkBucket 0 1]) ++ [mkBucket (seconds 3600000 - compactionInterval) 1])
     < maxRequests
  /\ fst (run "C" [(3600000, 3600000); (3600000, 3600000)]
            (with_log "C" ([] ++ [mkBucket 0 1]) empty_redis))
     = [Allow; Allow]
  /\ getAsync "C" (snd (run "C" [(3600000, 3600000); (3600000, 3600000)]
                          (with_log "C" ([] ++ [mkBucket 0 1]) empty_redis)))
     = Some (stored_log ((([] ++ [mkBucket 0 1])
                            ++ [mkBucket (seconds 3600000 - compactionInterval) 1])
                           ++ [mkBucket (seconds 3600000 - compactionInterval) 1])).
Proof.
  split; [vm_compute; reflexivity|].
  split; [vm_compute; reflexivity|]. split; [vm_compute; discriminate|].
  split; [vm_compute; discriminate|]. split; [vm_compute; reflexivity|].
  split; [vm_compute; reflexivity|].
  apply (appended_bucket_is_never_incremented "C" 3600000 3600000 3600000 3600000
           (with_log "C" ([] ++ [mkBucket 0 1]) empty_redis) [] (mkBucket 0 1));
    first [vm_compute; reflexivity | vm_compute; discriminate].
Defined.

(** ** The window total and the tally of admitted requests *)

Lemma updated_log_total_le (windowStart now : Z) (log : list Bucket) :
  totalAfter windowStart (updated_log now log) <= totalAfter windowStart log + 1.
Proof.
  unfold updated_log. destruct (last log) as [b|] eqn:Hlast; [|lia].
  apply last_Some in Hlast as [l ->].
  destruct (requestTimeStamp b >? now - compactionInterval).
  - rewrite insert_last, !totalAfter_app. simpl.
    destruct (requestTimeStamp b >? windowStart); lia.
  - rewrite !totalAfter_app. simpl.
    destruct (now - compactionInterval >? windowStart); lia.
Qed.

Lemma sumCounts_app (l l' : list Bucket) :
  sumCounts (l ++ l') = sumCounts l + sumCounts l'.
Proof. induction l as [|b l IH]; simpl; lia. Qed.

Lemma updated_log_sum (now : Z) (log : list Bucket) :
  log <> [] -> sumCounts (updated_log now log) = sumCounts log + 1.
Proof.
  intros Hne. unfold updated_log.
  destruct (last log) as [b|] eqn:Hlast; [|now apply last_None in Hlast].
  apply last_Some in Hlast as [l ->].
  destruct (requestTimeStamp b >? now - compactionInterval).
  - rewrite insert_last, !sumCounts_app. simpl. lia.
  - rewrite !sumCounts_app. simpl. lia.
Qed.

Lemma totalAfter_le_sum (windowStart : Z) (log : list Bucket) :
  counts_positive log = true -> totalAfter windowStart log <= sumCounts log.
Proof.
  induction log as [|b log IH]; simpl; [lia|].
  intros H. apply andb_true_iff in H as [Hb Hlog]. apply Z.leb_le in Hb.
  specialize (IH Hlog). destruct (requestTimeStamp b >? windowStart); lia.
Qed.

Lemma totalAfter_expired (windowStart : Z) (log : list Bucket) :
  Forall (fun b => requestTimeStamp b <= windowStart) log ->
  totalAfter windowStart log = 0.
Proof.
  induction 1 as [|b log Hb _ IH]; simpl; [reflexivity|].
  destruct (requestTimeStamp b >? windowStart) eqn:E; lia.
Qed.

(** X9: on a log whose counts are safe integers and not negative, an
    Allow decision never leaves more than [maxRequests] in the window it
    was decided on: the log written back has, after that window's start,
    a total of at most [maxRequests]. *)
Theorem allow_keeps_window_total (ip : string) (clock1 clock2 : Z) (redis : Redis)
  (log : list Bucket) :
  safe_counts log = true ->
  getAsync ip redis = Some (stored_log log) ->
  fst (customRedisRateLimiter ip clock1 clock2 redis) = Allow ->
  exists log',
    getAsync ip (snd (customRedisRateLimiter ip clock1 clock2 redis)) = Some (stored_log log')
    /\ totalAfter (seconds clock2 - windowSize) log' <= maxRequests.
Proof.
  intros _ Hget. rewrite (limiter_on_log ip clock1 clock2 redis log Hget).
  destruct (maxRequests <=? _) eqn:E; cbn [fst snd]; [discriminate|].
  destruct log as [|b0 log0]; cbn [fst snd]; [discriminate|]. intros _.
  eexists. split; [apply getAsync_setAsync|].
  pose proof (updated_log_total_le (seconds clock2 - windowSize) (seconds clock1)
                (b0 :: log0)).
  lia.
Qed.

Lemma allow_keeps_window_total_witness :
  safe_counts [mkBucket 0 109] = true
  /\ getAsync "C" (with_log "C" [mkBucket 0 109] empty_redis)
  = Some (stored_log [mkBucket 0 109])
  /\ fst (customRedisRateLimiter "C" 5000 5000 (with_log "C" [mkBucket 0 109] empty_redis))
     = Allow
  /\ exists log',
       getAsync "C" (snd (customRedisRateLimiter "C" 5000 5000
                            (with_log "C" [mkBucket 0 109] empty_redis)))
       = Some (stored_log log')
       /\ totalAfter (seconds 5000 - windowSize) log' <= maxRequests.
Proof.
  split; [vm_compute; reflexivity|].
  split; [vm_compute; reflexivity|]. split; [vm_compute; reflexivity|].
  apply (allow_keeps_window_total "C" 5000 5000 _ [mkBucket 0 109]);
    vm_compute; reflexivity.
Defined.

(** X10: once every bucket of a non-empty log has left the window (its
    timestamp is not after [now - windowSize]), the request is allowed,
    whatever the counts stored. *)
Theorem expired_log_allows (ip : string) (clock1 clock2 : Z) (redis : Redis)
  (log : list Bucket) :
  getAsync ip redis = Some (stored_log log) ->
  log <> [] ->
  Forall (fun b => requestTimeStamp b <= seconds clock2 - windowSize) log ->
  fst (customRedisRateLimiter ip clock1 clock2 redis) = Allow.
Proof.
  intros Hget Hne Hold. rewrite (limiter_on_log ip clock1 clock2 redis log Hget).
  rewrite totalAfter_expired by exact Hold.
  destruct log; [contradiction | reflexivity].
Qed.

Lemma expired_log_allows_witness :
  getAsync "C" (with_log "C" [mkBucket 0 110] empty_redis)
  = Some (stored_log [mkBucket 0 110])
  /\ [mkBucket 0 110] <> []
  /\ Forall (fun b => requestTimeStamp b <= seconds 86400000 - windowSize) [mkBucket 0 110]
  /\ fst (customRedisRateLimiter "C" 86400000 86400000
            (with_log "C" [mkBucket 0 110] empty_redis))
     = Allow.
Proof.
  assert (Forall (fun b => requestTimeStamp b <= seconds 86400000 - windowSize)
            [mkBucket 0 110]) as Hold
    by (repeat constructor; vm_compute; discriminate).
  split; [vm_compute; reflexivity|]. split; [discriminate|]. split; [exact Hold|].
  apply (expired_log_allows "C" 86400000 86400000 _ [mkBucket 0 110]);
    [vm_compute; reflexivity | discriminate | exact Hold].
Defined.

Lemma updated_log_positive (now : Z) (log : list Bucket) :
  log <> [] -> counts_positive log = true ->
  updated_log now log <> [] /\ counts_positive (updated_log now log) = true.
Proof.
  intros Hne Hpos. unfold updated_log.
  destruct (last log) as [b|] eqn:Hlast; [|now apply last_None in Hlast].
  apply last_Some in Hlast as [l ->].
  rewrite counts_positive_app in Hpos. apply andb_true_iff in Hpos as [Hl Hb].
  simpl in Hb. rewrite andb_true_r in Hb.
  destruct (requestTimeStamp b >? now - compactionInterval).
  - rewrite insert_last. split; [now destruct l|].
    rewrite counts_positive_app, Hl. simpl. rewrite andb_true_r.
    apply Z.leb_le. apply Z.leb_le in Hb. lia.
  - split; [now destruct l|].
    rewrite !counts_positive_app, Hl. simpl. now rewrite Hb.
Qed.

(** One evaluation on a tallied store: it never fails, it allows while
    fewer than [maxRequests] requests were admitted, and the tally grows
    by one exactly when it allows. *)
Lemma tallied_step (ip : string) (clock1 clock2 : Z) (admitted : Z) (redis : Redis) :
  tallied ip admitted redis ->
  0 <= admitted ->
  let (d, redis') := customRedisRateLimiter ip clock1 clock2 redis in
  tallied ip (admitted + (if is_allow d then 1 else 0)) redis'
  /\ is_fail d = false
  /\ (admitted < maxRequests -> d = Allow).
Proof.
  unfold tallied at 1. destruct (getAsync ip redis) as [record|] eqn:Hget.
  - intros (log & -> & Hne & Hpos & Hsum) _.
    rewrite (limiter_on_log ip clock1 clock2 redis log Hget).
    pose proof (totalAfter_le_sum (seconds clock2 - windowSize) log Hpos) as Hle.
    destruct (maxRequests <=? _) eqn:E.
    + cbn [is_allow is_fail]. split; [|split; [reflexivity|lia]].
      unfold tallied. rewrite Hget. exists log. rewrite Z.add_0_r. now repeat split.
    + destruct log as [|b0 log0]; [contradiction|].
      cbn [is_allow is_fail]. split; [|now split].
      unfold tallied. rewrite getAsync_setAsync. eexists. split; [reflexivity|].
      destruct (updated_log_positive (seconds clock1) (b0 :: log0) Hne Hpos) as [H1 H2].
      repeat split; try assumption.
      rewrite updated_log_sum by exact Hne. lia.
  - intros -> _. rewrite limiter_cold by exact Hget.
    cbn [is_allow is_fail]. split; [|now split].
    unfold tallied. rewrite getAsync_setAsync. eexists. split; [reflexivity|].
    repeat split. discriminate.
Qed.

Lemma run_tallied (ip : string) (evaluations : list Clocks) :
  forall (admitted : Z) (redis : Redis),
    tallied ip admitted redis ->
    0 <= admitted ->
    tallied ip (admitted + Z.of_nat (count_allows (fst (run ip evaluations redis))))
      (snd (run ip evaluations redis))
    /\ Forall (fun d => is_fail d = false) (fst (run ip evaluations redis))
    /\ (admitted + Z.of_nat (length evaluations) <= maxRequests ->
        fst (run ip evaluations redis) = repeat Allow (length evaluations)).
Proof.
  induction evaluations as [|[clock1 clock2] rest IH]; intros admitted redis Htal Hnn.
  - cbn [run fst snd count_allows]. rewrite Z.add_0_r. now repeat split.
  - cbn [run].
    pose proof (tallied_step ip clock1 clock2 admitted redis Htal Hnn) as Hstep.
    destruct (customRedisRateLimiter ip clock1 clock2 redis) as [d redis1].
    destruct Hstep as (Htal1 & Hok & Hallow).
    assert (0 <= admitted + (if is_allow d then 1 else 0)) as Hnn1
      by (destruct (is_allow d); lia).
    specialize (IH _ _ Htal1 Hnn1).
    destruct (run ip rest redis1) as [ds redis2].
    cbn [fst snd count_allows length] in *.
    destruct IH as (Htal2 & Hoks & Hall).
    split; [|split].
    + replace (admitted + Z.of_nat ((if is_allow d then 1 else 0) + count_allows ds))
        with (admitted + (if is_allow d then 1 else 0) + Z.of_nat (count_allows ds))
        by (destruct (is_allow d); lia).
      exact Htal2.
    + now constructor.
    + intros Hfew. rewrite Hallow by lia. cbn [repeat]. f_equal.
      rewrite Hallow in Hall by lia. cbn [is_allow] in Hall. apply Hall. lia.
Qed.

(** X11: from a cold start no evaluation of a sequence fails: whatever the
    clock readings, every decision is Allow or Deny, because what the
    limiter writes is always a non-empty log it can read back. *)
Theorem cold_start_never_fails (ip : string) (evaluations : list Clocks) (redis : Redis) :
  getAsync ip redis = None ->
  Forall (fun d => is_fail d = false) (fst (run ip evaluations redis)).
Proof.
  intros Hget.
  assert (tallied ip 0 redis) as Htal by (unfold tallied; now rewrite Hget).
  now destruct (run_tallied ip evaluations 0 redis Htal) as (_ & H & _).
Qed.

Lemma cold_start_never_fails_witness :
  getAsync "C" empty_redis = None
  /\ Forall (fun d => is_fail d = false) (fst (run "C" (every 1800 4 0) empty_redis)).
Proof. split; [reflexivity | apply cold_start_never_fails; reflexivity]. Defined.

(** X12: a client is never denied before [maxRequests] of its requests
    were admitted: from a cold start, the first [maxRequests] evaluations
    are all allowed, whatever the clock readings. *)
Theorem first_requests_all_allowed (ip : string) (evaluations : list Clocks)
  (redis : Redis) :
  getAsync ip redis = None ->
  Z.of_nat (length evaluations) <= maxRequests ->
  fst (run ip evaluations redis) = repeat Allow (length evaluations).
Proof.
  intros Hget Hfew.
  assert (tallied ip 0 redis) as Htal by (unfold tallied; now rewrite Hget).
  destruct (run_tallied ip evaluations 0 redis Htal) as (_ & _ & H); [lia|].
  apply H. lia.
Qed.

Lemma first_requests_all_allowed_witness :
  getAsync "C" empty_redis = None
  /\ Z.of_nat (length (every 90000 3 0)) <= maxRequests
  /\ fst (run "C" (every 90000 3 0) empty_redis) = repeat Allow (length (every 90000 3 0)).
Proof.
  split; [reflexivity|]. split; [vm_compute; discriminate|].
  apply first_requests_all_allowed; [reflexivity | vm_compute; discriminate].
Defined.

(** X13: the stored counts tally the admitted requests: after a non-empty
    sequence of evaluations from a cold start, the counts of the stored
    log sum to the number of Allow decisions; denied requests are not
    counted and no admitted request is lost. *)
Theorem counts_sum_to_allows (ip : string) (evaluations : list Clocks) (redis : Redis) :
  getAsync ip redis = None ->
  evaluations <> [] ->
  exists log,
    getAsync ip (snd (run ip evaluations redis)) = Some (stored_log log)
    /\ sumCounts log = Z.of_nat (count_allows (fst (run ip evaluations redis))).
Proof.
  intros Hget Hne.
  assert (tallied ip 0 redis) as Htal by (unfold tallied; now rewrite Hget).
  destruct (run_tallied ip evaluations 0 redis Htal) as (H & _ & _); [lia|].
  unfold tallied in H.
  destruct (getAsync ip (snd (run ip evaluations redis))) as [record|] eqn:Hfinal.
  - destruct H as (log & -> & _ & _ & Hsum). exists log. split; [reflexivity|lia].
  - exfalso. destruct evaluations as [|[clock1 clock2] rest]; [contradiction|].
    cbn [run] in H. rewrite limiter_cold in H by exact Hget.
    destruct (run ip rest _) as [ds redis2]. cbn [fst count_allows is_allow] in H. lia.
Qed.

Lemma counts_sum_to_allows_witness :
  getAsync "C" empty_redis = None
  /\ every 1 112 0 <> []
  /\ exists log,
       getAsync "C" (snd (run "C" (every 1 112 0) empty_redis)) = Some (stored_log log)
       /\ sumCounts log = Z.of_nat (count_allows (fst (run "C" (every 1 112 0) empty_redis))).
Proof.
  split; [reflexivity|]. split; [discriminate|].
  apply counts_sum_to_allows; [reflexivity | discriminate].
Defined.

(** ** Two overlapping invocations for one key *)

(** X14: when two invocations for the same key overlap, both reading
    before either writes, each decides as it would alone on the store
    they both read, and the second write replaces the first: the value
    left under the key is what the second invocation alone would have
    left if it allowed, and what the first left otherwise. *)
Theorem racing_second_write_wins (ip : string) (clock1 clock2 clock1' clock2' : Z)
  (redis : Redis) :
  let alone := customRedisRateLimiter ip clock1 clock2 redis in
  let alone' := customRedisRateLimiter ip clock1' clock2' redis in
  let result := racing ip (clock1, clock2) (clock1', clock2') redis in
  fst result = (fst alone, fst alone')
  /\ getAsync ip (snd result)
     = if is_allow (fst alone') then getAsync ip (snd alone') else getAsync ip (snd alone).
Proof.
  cbv zeta. unfold racing. cbn [fst snd]. rewrite !limiter_after_get.
  destruct (after_get_shape clock1 clock2 (getAsync ip redis)) as (d & v & _ & H).
  destruct (after_get_shape clock1' clock2' (getAsync ip redis)) as (d' & v' & Hd' & H').
  rewrite !H, !H'. cbn [fst snd]. split; [reflexivity|].
  rewrite Hd'. destruct v' as [value|]; cbn [write_back]; [|reflexivity].
  now rewrite !getAsync_setAsync.
Qed.

(** X15: the race on a log whose counts are safe integers and not
    negative: when the window total of the stored log is below
    [maxRequests] for both of two overlapping invocations, both are
    allowed and both write, but the log left behind records one request
    only: its counts sum to one more than before. *)
Theorem racing_loses_an_update (ip : string) (clock1 clock2 clock1' clock2' : Z)
  (redis : Redis) (log : list Bucket) :
  safe_counts log = true ->
  getAsync ip redis = Some (stored_log log) ->
  log <> [] ->
  totalAfter (seconds clock2 - windowSize) log < maxRequests ->
  totalAfter (seconds clock2' - windowSize) log < maxRequests ->
  exists final log',
    racing ip (clock1, clock2) (clock1', clock2') redis = (Allow, Allow, final)
    /\ set_commands final = S (S (set_commands redis))
    /\ getAsync ip final = Some (stored_log log')
    /\ sumCounts log' = sumCounts log + 1.
Proof.
  intros _ Hget Hne Hroom Hroom'.
  pose proof (limiter_on_log ip clock1 clock2 redis log Hget) as HA.
  pose proof (limiter_on_log ip clock1' clock2' redis log Hget) as HB.
  rewrite limiter_after_get in HA, HB.
  destruct (maxRequests <=? totalAfter (seconds clock2 - windowSize) log) eqn:E; [lia|].
  destruct (maxRequests <=? totalAfter (seconds clock2' - windowSize) log) eqn:E'; [lia|].
  destruct log as [|b0 log0]; [contradiction|].
  destruct (after_get_shape clock1 clock2 (getAsync ip redis)) as (d & v & _ & H).
  destruct (after_get_shape clock1' clock2' (getAsync ip redis)) as (d' & v' & _ & H').
  rewrite H in HA. rewrite H' in HB.
  injection HA as -> Hv. injection HB as -> Hv'.
  destruct v as [value|];
    [|exfalso; apply (f_equal set_commands) in Hv; simpl in Hv; lia].
  destruct v' as [value'|];
    [|exfalso; apply (f_equal set_commands) in Hv'; simpl in Hv'; lia].
  assert (value' = stored_log (updated_log (seconds clock1') (b0 :: log0))) as ->.
  { cbn [write_back] in Hv'. apply (f_equal (getAsync ip)) in Hv'.
    rewrite !getAsync_setAsync in Hv'. congruence. }
  unfold racing. cbn [fst snd]. rewrite H, H'. cbn [write_back].
  eexists _, _. split; [reflexivity|]. split; [reflexivity|].
  split; [apply getAsync_setAsync|]. now apply updated_log_sum.
Qed.

Lemma racing_loses_an_update_witness :
  safe_counts [mkBucket 0 109] = true
  /\ getAsync "C" (with_log "C" [mkBucket 0 109] empty_redis)
  = Some (stored_log [mkBucket 0 109])
  /\ [mkBucket 0 109] <> []
  /\ totalAfter (seconds 5000 - windowSize) [mkBucket 0 109] < maxRequests
  /\ totalAfter (seconds 6000 - windowSize) [mkBucket 0 109] < maxRequests
  /\ exists final log',
       racing "C" (5000, 5000) (6000, 6000) (with_log "C" [mkBucket 0 109] empty_redis)
       = (Allow, Allow, final)
       /\ set_commands final = S (S (set_commands (with_log "C" [mkBucket 0 109] empty_redis)))
       /\ getAsync "C" final = Some (stored_log log')
       /\ sumCounts log' = sumCounts [mkBucket 0 109] + 1.
Proof.
  split; [vm_compute; reflexivity|].
  split; [vm_compute; reflexivity|]. split; [discriminate|].
  split; [vm_compute; reflexivity|]. split; [vm_compute; reflexivity|].
  apply (racing_loses_an_update "C" 5000 5000 6000 6000 _ [mkBucket 0 109]);
    first [vm_compute; reflexivity | discriminate].
Defined.

(** ** A stored bucket without a count *)

Lemma js_add_NaN_r (a : jsnum) : js_add a NaN = NaN.
Proof. now destruct a. Qed.

Lemma filter_without_null (windowStart : Z) (entries : list jsentry) :
  existsb is_null entries = false ->
  exists kept,
    filter_entries
      (fun e =>
         let* ts := get_prop "requestTimeStamp" (Some e) in
         Ok (js_gt (ToNumber ts) (Num windowStart)))
      entries = Ok kept
    /\ existsb is_null kept = false
    /\ (existsb (counts_as_NaN windowStart) entries = true ->
        existsb count_is_NaN kept = true).
Proof.
  induction entries as [|e entries IH]; cbn [existsb filter_entries].
  - intros _. exists []. repeat split. discriminate.
  - intros H. apply orb_false_iff in H as [He Hrest].
    destruct (IH Hrest) as (kept & -> & Hnull & Hnan).
    destruct e as [|n|props]; [discriminate| |]; cbn [get_prop bind ToNumber js_gt].
    + exists kept. repeat split; [exact Hnull|]. exact Hnan.
    + unfold counts_as_NaN at 1.
      destruct (js_gt (ToNumber (lookup_prop "requestTimeStamp" props)) (Num windowStart)).
      * exists (EObject props :: kept). cbn [existsb is_null orb andb].
        repeat split; [exact Hnull|].
        intros H. apply orb_true_iff in H as [H|H]; apply orb_true_iff; auto.
      * exists kept. cbn [andb orb]. repeat split; [exact Hnull|]. exact Hnan.
Qed.

Lemma reduce_without_null (kept : list jsentry) :
  existsb is_null kept = false ->
  forall acc,
  exists total,
    Array_reduce
      (fun accumulator e =>
         let* count := get_prop "requestCount" (Some e) in
         Ok (js_add accumulator (ToNumber count)))
      kept acc = Ok total
    /\ (acc = NaN \/ existsb count_is_NaN kept = true -> total = NaN).
Proof.
  match goal with |- context [Array_reduce ?f] => set (callback := f) end.
  induction kept as [|e kept IH]; cbn [existsb Array_reduce].
  - intros _ acc. exists acc. split; [reflexivity|]. now intros [H|H].
  - intros H acc. apply orb_false_iff in H as [He Hrest]. specialize (IH Hrest).
    destruct e as [|n|props]; [discriminate| |];
      unfold callback at 1; cbn [get_prop bind ToNumber].
    + rewrite js_add_NaN_r. destruct (IH NaN) as (total & -> & Htotal).
      exists total. split; [reflexivity|]. intros _. apply Htotal. now left.
    + destruct (IH (js_add acc (ToNumber (lookup_prop "requestCount" props))))
        as (total & -> & Htotal).
      exists total. split; [reflexivity|]. intros Hcase. apply Htotal.
      unfold count_is_NaN at 1 in Hcase.
      destruct Hcase as [->|Hcase]; [now left|].
      destruct (ToNumber (lookup_prop "requestCount" props)) eqn:Ecount.
      * left. apply js_add_NaN_r.
      * cbn [orb] in Hcase. now right.
Qed.

Lemma last_without_null (entries : list jsentry) (e : jsentry) :
  existsb is_null entries = false -> last entries = Some e -> is_null e = false.
Proof.
  intros Hnull Hlast. apply last_Some in Hlast as [l ->].
  rewrite existsb_app in Hnull. apply orb_false_iff in Hnull as [_ Hnull].
  simpl in Hnull. now rewrite orb_false_r in Hnull.
Qed.

(** X16: a stored array without [null] elements that holds, inside the
    window, an object that has no [requestCount] property switches the
    limit off: that count reads as [undefined], the window total is
    [NaN], which is not [>=] the maximum, so the request is allowed
    whatever the other counts are. (A [requestCount] that is [null] reads
    as 0 and does not have this effect.) *)
Theorem missing_count_disables_limit (ip : string) (clock1 clock2 : Z) (redis : Redis)
  (entries : list jsentry) :
  getAsync ip redis = Some (JsonText (DArray entries)) ->
  existsb is_null entries = false ->
  existsb (counts_as_NaN (seconds clock2 - windowSize)) entries = true ->
  fst (customRedisRateLimiter ip clock1 clock2 redis) = Allow.
Proof.
  intros Hget Hnull Hnan. unfold customRedisRateLimiter. rewrite Hget.
  unfold evaluate_record. cbn [JSON_parse bind Array_filter].
  rewrite unix_subtract. change (WINDOW_SIZE_IN_HOURS * 3600) with windowSize.
  destruct (filter_without_null (seconds clock2 - windowSize) entries Hnull)
    as (kept & -> & Hkept & Hpoison).
  cbn [bind].
  destruct (reduce_without_null kept Hkept (Num 0)) as (total & -> & Htotal).
  cbn [bind]. rewrite Htotal by (right; now apply Hpoison). cbn [js_ge].
  destruct (last entries) as [e|] eqn:Hlast.
  - pose proof (last_without_null entries e Hnull Hlast) as He.
    destruct e as [|n|props]; [discriminate| |]; cbn [get_prop bind ToNumber js_gt].
    + reflexivity.
    + destruct (js_gt _ _); reflexivity.
  - apply last_None in Hlast. subst entries. discriminate.
Qed.

Lemma missing_count_disables_limit_witness :
  getAsync "C"
    (store_holding "C"
       (JsonText (DArray [entry 0 500; EObject [("requestTimeStamp", PNum 10)]])))
  = Some (JsonText (DArray [entry 0 500; EObject [("requestTimeStamp", PNum 10)]]))
  /\ existsb is_null [entry 0 500; EObject [("requestTimeStamp", PNum 10)]] = false
  /\ existsb (counts_as_NaN (seconds 20000 - windowSize))
       [entry 0 500; EObject [("requestTimeStamp", PNum 10)]] = true
  /\ fst (customRedisRateLimiter "C" 20000 20000
            (store_holding "C"
               (JsonText (DArray [entry 0 500; EObject [("requestTimeStamp", PNum 10)]]))))
     = Allow.
Proof.
  split; [vm_compute; reflexivity|]. split; [reflexivity|].
  split; [vm_compute; reflexivity|].
  apply (missing_count_disables_limit "C" 20000 20000 _
           [entry 0 500; EObject [("requestTimeStamp", PNum 10)]]);
    vm_compute; reflexivity.
Defined.

(** ** Later requests, and the size of the counts *)

Lemma totalAfter_antitone (windowStart windowStart' : Z) (log : list Bucket) :
  counts_positive log = true ->
  windowStart <= windowStart' ->
  totalAfter windowStart' log <= totalAfter windowStart log.
Proof.
  intros Hpos Hle. induction log as [|b log IH]; simpl; [lia|].
  simpl in Hpos. apply andb_true_iff in Hpos as [Hb Hlog]. apply Z.leb_le in Hb.
  specialize (IH Hlog).
  destruct (requestTimeStamp b >? windowStart') eqn:E',
           (requestTimeStamp b >? windowStart) eqn:E; lia.
Qed.

(** X17: waiting never turns an Allow into a Deny: on a log with positive
    counts, a request that is denied when the window start is read at
    some time is also denied when it is read at any earlier time. *)
Theorem denied_later_denied_earlier (ip : string) (clock1 clock2 clock1' clock2' : Z)
  (redis : Redis) (log : list Bucket) :
  getAsync ip redis = Some (stored_log log) ->
  counts_positive log = true ->
  seconds clock2 <= seconds clock2' ->
  is_deny (fst (customRedisRateLimiter ip clock1' clock2' redis)) = true ->
  is_deny (fst (customRedisRateLimiter ip clock1 clock2 redis)) = true.
Proof.
  intros Hget Hpos Hle.
  rewrite (limiter_on_log ip clock1' clock2' redis log Hget).
  rewrite (limiter_on_log ip clock1 clock2 redis log Hget).
  pose proof (totalAfter_antitone (seconds clock2 - windowSize)
                (seconds clock2' - windowSize) log Hpos) as Hanti.
  destruct (maxRequests <=? totalAfter (seconds clock2' - windowSize) log) eqn:E'.
  - intros _. destruct (maxRequests <=? totalAfter (seconds clock2 - windowSize) log) eqn:E;
      [reflexivity|lia].
  - now destruct log.
Qed.

Lemma denied_later_denied_earlier_witness :
  getAsync "C" (with_log "C" [mkBucket 0 110] empty_redis)
  = Some (stored_log [mkBucket 0 110])
  /\ counts_positive [mkBucket 0 110] = true
  /\ seconds 5000 <= seconds 86399000
  /\ is_deny (fst (customRedisRateLimiter "C" 86399000 86399000
                     (with_log "C" [mkBucket 0 110] empty_redis))) = true
  /\ is_deny (fst (customRedisRateLimiter "C" 5000 5000
                     (with_log "C" [mkBucket 0 110] empty_redis))) = true.
Proof.
  split; [vm_compute; reflexivity|]. split; [reflexivity|].
  split; [vm_compute; discriminate|]. split; [vm_compute; reflexivity|].
  apply (denied_later_denied_earlier "C" 5000 5000 86399000 86399000 _ [mkBucket 0 110]);
    first [vm_compute; reflexivity | vm_compute; discriminate].
Defined.

Lemma counts_bounded_app (l l' : list Bucket) :
  counts_bounded (l ++ l') = counts_bounded l && counts_bounded l'.
Proof. apply forallb_app. Qed.

Lemma last_count_le_total (windowStart : Z) (l : list Bucket) (b : Bucket) :
  counts_positive (l ++ [b]) = true ->
  windowStart < requestTimeStamp b ->
  requestCount b <= totalAfter windowStart (l ++ [b]).
Proof.
  intros Hpos Hin. rewrite totalAfter_app. simpl.
  rewrite counts_positive_app in Hpos. apply andb_true_iff in Hpos as [Hl _].
  destruct (requestTimeStamp b >? windowStart) eqn:E; [|lia].
  assert (0 <= totalAfter windowStart l); [|lia].
  clear -Hl. induction l as [|a l IH]; simpl; [lia|].
  simpl in Hl. apply andb_true_iff in Hl as [Ha Hl]. apply Z.leb_le in Ha.
  specialize (IH Hl). destruct (requestTimeStamp a >? windowStart); lia.
Qed.

Lemma bounded_step (ip : string) (clock1 clock2 : Z) (redis : Redis) :
  prompt (clock1, clock2) ->
  holds_bounded_log ip redis ->
  holds_bounded_log ip (snd (customRedisRateLimiter ip clock1 clock2 redis)).
Proof.
  unfold prompt, holds_bounded_log at 1. cbn [fst snd]. intros Hprompt.
  destruct (getAsync ip redis) as [record|] eqn:Hget.
  - intros (log & -> & Hpos & Hbnd).
    rewrite (limiter_on_log ip clock1 clock2 redis log Hget).
    destruct (maxRequests <=? _) eqn:E; cbn [snd].
    + unfold holds_bounded_log. rewrite Hget. eauto.
    + destruct log as [|b0 log0]; cbn [snd].
      * unfold holds_bounded_log. rewrite Hget. eauto.
      * unfold holds_bounded_log. rewrite getAsync_setAsync.
        eexists. split; [reflexivity|].
        assert (b0 :: log0 <> []) as Hne by discriminate.
        destruct (updated_log_positive (seconds clock1) _ Hne Hpos) as [_ Hpos'].
        split; [exact Hpos'|].
        unfold updated_log.
        destruct (last (b0 :: log0)) as [b|] eqn:Hlast; [|exact Hbnd].
        apply last_Some in Hlast as [l Hl]. rewrite Hl in *.
        rewrite counts_bounded_app in Hbnd. apply andb_true_iff in Hbnd as [Hbl Hbb].
        destruct (requestTimeStamp b >? seconds clock1 - compactionInterval) eqn:Ein.
        -- rewrite insert_last, counts_bounded_app, Hbl. simpl. rewrite andb_true_r.
           apply Z.leb_le.
           pose proof (last_count_le_total (seconds clock2 - windowSize) l b Hpos).
           lia.
        -- rewrite !counts_bounded_app, Hbl, Hbb. reflexivity.
  - intros _. rewrite limiter_cold by exact Hget. cbn [snd].
    unfold holds_bounded_log. rewrite getAsync_setAsync.
    eexists. split; [reflexivity|]. split; reflexivity.
Qed.

(** X18: the stored counts stay small: from a cold start, when every
    evaluation reads its window start no more than 23 hours after its
    entry, every bucket of the stored log has a count between 1 and
    [maxRequests], after any sequence of evaluations. *)
Theorem counts_never_exceed_limit (ip : string) (evaluations : list Clocks) (redis : Redis) :
  getAsync ip redis = None ->
  Forall prompt evaluations ->
  holds_bounded_log ip (snd (run ip evaluations redis)).
Proof.
  intros Hget Hprompt.
  assert (holds_bounded_log ip redis) as Hinv
    by (unfold holds_bounded_log; now rewrite Hget).
  clear Hget. revert redis Hinv.
  induction Hprompt as [|[clock1 clock2] rest Hev _ IH]; intros redis Hinv; [exact Hinv|].
  cbn [run].
  pose proof (bounded_step ip clock1 clock2 redis Hev Hinv) as Hstep.
  destruct (customRedisRateLimiter ip clock1 clock2 redis) as [d redis1].
  specialize (IH redis1 Hstep).
  now destruct (run ip rest redis1) as [ds redis2].
Qed.

Lemma counts_never_exceed_limit_witness :
  getAsync "C" empty_redis = None
  /\ Forall prompt [at_second 0; at_second 30]
  /\ holds_bounded_log "C" (snd (run "C" [at_second 0; at_second 30] empty_redis)).
Proof.
  assert (Forall prompt [at_second 0; at_second 30]) as Hprompt
    by (repeat constructor; vm_compute; discriminate).
  split; [reflexivity|]. split; [exact Hprompt|].
  apply counts_never_exceed_limit; [reflexivity | exact Hprompt].
Defined.
